(** * Checkmk check plugins for Microsoft Intune: a shallow embedding

    This development models the agent-based check plugins of the
    repository ([src/intune/agent_based/*.py]) and proves properties of
    their parse and check functions.

    Modelling choices:
    - A check function is a Python generator.  Its run is modelled as a
      [CheckResult]: the list of outputs yielded before it stopped,
      together with the exception it raised, if any ([None] = it returned
      normally).
    - Python [int] is [Z].  A Python [float] computed by the app-licenses
      check is an IEEE 754 binary64 value, [PyFloat]: a finite value (a
      rational that a double represents) or an infinity; every arithmetic
      operation rounds its exact result to nearest, ties to even ([fl]),
      as CPython's [int / int], [float * float], [float - float] and
      [round(x, 2)] do.  Levels from the parameters are taken as given
      ([Q]); the POSIX timestamps of the expiry plugins are [Q], computed
      exactly.
    - The parsed section ([Mapping[str, Record]]) is a [gmap string R];
      [section.get(item)] is [section !! item].
    - The host services the plugins call and that are not part of this
      repository ([render.*], f-string formatting of numbers,
      [datetime.fromisoformat(..).timestamp()] and [datetime.now()]) are
      gathered in a record [Host] that every check receives. *)

From Stdlib Require Import QArith Qpower Qround Qabs Lqa ZArith String.
From stdpp Require Import gmap strings list.

Open Scope string_scope.

(** ** The framework API ([cmk.agent_based.v2]) *)

Inductive State := OK | WARN | CRIT.

(** Exceptions a check function can raise. *)
Inductive Exc := ZeroDivisionError | KeyError | TypeError | ValueError | OverflowError.

(** Level specifications of [SimpleLevels]: [("no_levels", None)] and
    [("fixed", (warn, crit))]. *)
Inductive Levels :=
| NoLevels
| Fixed (warn crit : Q).

(** ** Binary64 arithmetic

    A Python [float]: a finite double, given by its exact rational value,
    or an infinity.  NaN does not arise in the code modelled. *)
Inductive PyFloat :=
| Fin (q : Q)
| PosInf
| NegInf.

(** The exponent [e] of a positive rational [a]: [2^e <= a < 2^(e+1)]. *)
Definition qlog2 (a : Q) : Z :=
  if Qle_bool 1 a then Z.log2 (Qfloor a) else (- Z.log2_up (Qceiling (/ a)))%Z.

(** The spacing [2^k] of the doubles next to a positive [a]: 53
    significant bits, and the fixed spacing [2^-1074] of the subnormals. *)
Definition quantum_exp (a : Q) : Z := Z.max (qlog2 a - 52) (-1074).

(** Round half to even of a rational to an integer. *)
Definition round_half_even (x : Q) : Z :=
  let f := Qfloor x in
  let r := (x - inject_Z f)%Q in
  match Qcompare r (1 # 2) with
  | Lt => f
  | Gt => (f + 1)%Z
  | Eq => if Z.even f then f else (f + 1)%Z
  end.

(** Rounding to the nearest multiple of [2^k], ties to even. *)
Definition round_quantum (k : Z) (a : Q) : Q :=
  (inject_Z (round_half_even (a / 2 ^ k)) * 2 ^ k)%Q.

(** Rounding of a positive rational to 53 bits, the exponent unbounded
    above. *)
Definition round_pos (a : Q) : Q := round_quantum (quantum_exp a) a.

(** Round to nearest, ties to even, of an exact result to a double; a
    result that rounds to [2^1024] or beyond overflows to an infinity. *)
Definition fl (q : Q) : PyFloat :=
  match Qcompare q 0 with
  | Eq => Fin 0
  | Gt => let v := round_pos q in
          if Qle_bool (2 ^ 1024) v then PosInf else Fin v
  | Lt => let v := round_pos (- q) in
          if Qle_bool (2 ^ 1024) v then NegInf else Fin (- v)%Q
  end.

(** Python [a / b] on two [int]s: [ZeroDivisionError] for [b = 0], the
    correctly rounded quotient otherwise, and [OverflowError] ("integer
    division result too large for a float") when it rounds beyond the
    doubles. *)
Definition py_int_truediv (a b : Z) : Exc + Q :=
  if Z.eqb b 0 then inl ZeroDivisionError
  else match fl (inject_Z a / inject_Z b) with
       | Fin q => inr q
       | _ => inl OverflowError
       end.

(** Python [round(x, 2)] on a float: the exact value of [x] rounded half
    to even to two decimals, read back as the nearest double
    ([OverflowError] when that is beyond the doubles); infinities round
    to themselves. *)
Definition py_round2 (x : PyFloat) : Exc + PyFloat :=
  match x with
  | Fin q =>
      match fl (inject_Z (round_half_even (q * 100)) / 100) with
      | Fin v => inr (Fin v)
      | _ => inl OverflowError
      end
  | PosInf => inr PosInf
  | NegInf => inr NegInf
  end.

(** Python [x < y] for a float [x] and a finite [y]. *)
Definition py_lt (x : PyFloat) (y : Q) : bool :=
  match x with
  | Fin q => negb (Qle_bool y q)
  | PosInf => false
  | NegInf => true
  end.

(** [levels[1]]: the second component of the levels tuple. *)
Definition levels_index1 (lv : Levels) : option (option PyFloat * option PyFloat) :=
  match lv with
  | NoLevels => None
  | Fixed w c => Some (Some (Fin w), Some (Fin c))
  end.

(** Items yielded by a check function: [Result(state, summary, details)]
    and [Metric(name, value, levels)] ([levels] is [None] when absent).
    An [int] value is the finite number it denotes. *)
Inductive Output :=
| Result (state : State) (summary details : string)
| Metric (name : string) (value : PyFloat)
    (levels : option (option PyFloat * option PyFloat)).

Definition CheckResult : Type := (list Output * option Exc)%type.

(** [Service(item=..)] yielded by a discovery function; [None] is a
    service without item. *)
Inductive Service := MkService (item : option string).

(** Discovery of a multi-instance check:
<<
    for group in section:
        yield Service(item=group)
>>
    one service per key of the section.  The iteration order of the
    Python dict (insertion order) is not modelled: the keys are listed in
    the map's own order. *)
Definition discover_keys {R} (section : gmap string R) : list Service :=
  (fun k => MkService (Some k)) <$> (map_to_list section).*1.

(** Generator combinators: [return], [yield], [raise], [yield from]. *)
Definition done : CheckResult := ([], None).

Definition yield (o : Output) (k : CheckResult) : CheckResult :=
  (o :: k.1, k.2).

Definition raise (e : Exc) : CheckResult := ([], Some e).

(** [yield from g] followed by the rest [k] of the generator: [k] runs
    only when [g] did not raise. *)
Definition yield_from (g k : CheckResult) : CheckResult :=
  match g.2 with
  | None => ((g.1 ++ k.1)%list, k.2)
  | Some _ => g
  end.

(** A Python expression that may raise, followed by the rest. *)
Definition bind_exc {A} (x : Exc + A) (k : A -> CheckResult) : CheckResult :=
  match x with
  | inl e => raise e
  | inr a => k a
  end.

(** Services of the host that the plugins call. *)
Record Host := {
  render_percent : PyFloat -> string;
  render_timespan : Q -> string;
  render_datetime : Q -> string;
  (** f-string formatting of a number *)
  fmt_num : Q -> string;
  (** [datetime.fromisoformat(s).timestamp()]; [None] when it raises
      [ValueError] *)
  fromisoformat : string -> option Q;
  (** [datetime.now().timestamp()] *)
  now : Q
}.

(** [check_levels(value, levels_lower=.., metric_name=.., label=..,
    render_func=..)] of the framework, for lower levels: the state is
    CRIT below the critical level and WARN below the warning level; the
    levels are named in the summary when they fire; a metric carrying the
    value is yielded after the result when [metric_name] is given. *)
Definition check_levels (value : Q) (levels_lower : option Levels)
    (metric_name : option string) (label : string)
    (render_func : Q -> string) : CheckResult :=
  let '(st, levels_text) :=
    match levels_lower with
    | Some (Fixed w c) =>
        let txt := " (warn/crit below " +:+ render_func w +:+ "/"
                   +:+ render_func c +:+ ")" in
        if Qlt_le_dec value c then (CRIT, txt)
        else if Qlt_le_dec value w then (WARN, txt)
        else (OK, "")
    | _ => (OK, "")
    end in
  let summary := label +:+ ": " +:+ render_func value +:+ levels_text in
  yield (Result st summary summary)
    (match metric_name with
     | Some m => yield (Metric m (Fin value) None) done
     | None => done
     end).

(** [s[-4:]] *)
Definition py_last4 (s : string) : string :=
  substring (String.length s - 4)%nat 4 s.

(** Lower-direction comparison of a value against (warning, critical). *)
Definition lower_state (value warn crit : Q) : State :=
  if Qlt_le_dec value crit then CRIT
  else if Qlt_le_dec value warn then WARN
  else OK.

Definition newline : string := String (Ascii.ascii_of_nat 10) EmptyString.

(** ** [ms_intune_app_licenses.py] *)
Module AppLicenses.

Record IntuneApp := {
  app_type : string;
  app_name : string;
  app_publisher : string;
  app_license_total : Z;
  app_license_consumed : Z;
  app_assigned : bool
}.

(** The parameter mapping.  [lic_unit_available_lower] is the pair
    (mode, levels), the mode being ["lic_unit_available_lower_pct"] or
    ["lic_unit_available_lower_abs"]; a key absent from the mapping is
    [None]. *)
Record Params := {
  lic_unit_available_lower : option (string * Levels);
  lic_total_min : option Z
}.

Definition check_default_parameters : Params := {|
  lic_unit_available_lower := Some ("lic_unit_available_lower_pct", Fixed 10 5);
  lic_total_min := Some 1%Z
|}.

(** [parse_ms_intune_app_licenses], over the decoded JSON array. *)
Fixpoint parse_loop (parsed : gmap string IntuneApp) (items : list IntuneApp)
    : gmap string IntuneApp :=
  match items with
  | [] => parsed
  | item :: rest =>
      let service_name := app_name item +:+ " - " +:+ app_type item in
      parse_loop (<[service_name := item]> parsed) rest
  end.

Definition parse_ms_intune_app_licenses (items : list IntuneApp)
    : gmap string IntuneApp :=
  parse_loop ∅ items.

(** Lines 105-141 of [check_ms_intune_app_licenses]: the values of
    [result_level], [result_state], [levels_consumed_abs] and
    [levels_consumed_pct] after the threshold block.  The percentage
    levels are floats ([Percentage]); the absolute levels are [int]s
    ([SimpleLevels[int]]), so [total - warning_level] is exact. *)
Definition thresholds (host : Host) (license : IntuneApp) (params : Params)
    : Exc + (string * State * (option PyFloat * option PyFloat)
             * (option PyFloat * option PyFloat)) :=
  let total := inject_Z (app_license_total license) in
  let consumed := inject_Z (app_license_consumed license) in
  let lic_units_available := (app_license_total license - app_license_consumed license)%Z in
  match lic_total_min params with
  | None => inl KeyError
  | Some params_lic_total_min =>
      if (params_lic_total_min <=? app_license_total license)%Z then
        match lic_unit_available_lower params with
        | None => inl KeyError
        | Some (_, NoLevels) => inr ("", OK, (None, None), (None, None))
        | Some (mode, Fixed warning_level critical_level) =>
            if String.eqb mode "lic_unit_available_lower_pct" then
              let levels_consumed_pct :=
                (Some (fl (100 - warning_level)), Some (fl (100 - critical_level))) in
              match py_int_truediv lic_units_available (app_license_total license) with
              | inl e => inl e
              | inr q =>
                  let available_percent := fl (q * 100) in
                  let result_state :=
                    if py_lt available_percent critical_level then CRIT
                    else if py_lt available_percent warning_level then WARN
                    else OK in
                  let result_level :=
                    " (warn/crit below " +:+ render_percent host (Fin warning_level) +:+ "/"
                    +:+ render_percent host (Fin critical_level) +:+ " available)" in
                  inr (result_level, result_state, (None, None), levels_consumed_pct)
              end
            else
              let levels_consumed_abs :=
                ((total - warning_level)%Q, (total - critical_level)%Q) in
              (* consumed > levels_consumed_abs[1], consumed > levels_consumed_abs[0] *)
              let result_state :=
                if Qlt_le_dec levels_consumed_abs.2 consumed then CRIT
                else if Qlt_le_dec levels_consumed_abs.1 consumed then WARN
                else OK in
              let result_level :=
                " (warn/crit below " +:+ fmt_num host warning_level +:+ "/"
                +:+ fmt_num host critical_level +:+ " available)" in
              inr (result_level, result_state,
                   (Some (Fin levels_consumed_abs.1), Some (Fin levels_consumed_abs.2)),
                   (None, None))
        end
      else inr ("", OK, (None, None), (None, None))
  end.

Definition discover_ms_intune_app_licenses (section : gmap string IntuneApp)
    : list Service :=
  discover_keys section.

(** [check_ms_intune_app_licenses].  A record found in the section is a
    dataclass instance, which is always truthy, so [if not license] only
    catches a missing item. *)
Definition check_ms_intune_app_licenses (host : Host) (item : string)
    (params : Params) (section : gmap string IntuneApp) : CheckResult :=
  match section !! item with
  | None => done
  | Some license =>
      let total := app_license_total license in
      let consumed := app_license_consumed license in
      bind_exc (py_int_truediv consumed total) (fun q =>
      bind_exc (py_round2 (fl (q * 100))) (fun app_license_consumed_pct =>
      let lic_units_available := (total - consumed)%Z in
      bind_exc (thresholds host license params) (fun '(result_level, result_state,
                                                      levels_consumed_abs, levels_consumed_pct) =>
      let result_summary :=
        "Consumed: " +:+ render_percent host app_license_consumed_pct +:+ " - "
        +:+ fmt_num host (inject_Z consumed) +:+ " of " +:+ fmt_num host (inject_Z total)
        +:+ ", Available: " +:+ fmt_num host (inject_Z lic_units_available)
        +:+ result_level in
      let result_details :=
        String.concat newline
          [ "Name: " +:+ app_name license;
            "Publisher: " +:+ app_publisher license;
            "Type: " +:+ app_type license;
            "Total: " +:+ fmt_num host (inject_Z total);
            "Used: " +:+ fmt_num host (inject_Z consumed);
            "Is assigned: " +:+ (if app_assigned license then "yes" else "no") ] in
      yield (Result result_state result_summary result_details)
      (yield (Metric "ms_intune_app_licenses_total" (Fin (inject_Z total)) None)
      (yield (Metric "ms_intune_app_licenses_consumed" (Fin (inject_Z consumed))
                (Some levels_consumed_abs))
      (yield (Metric "ms_intune_app_licenses_consumed_pct" app_license_consumed_pct
                (Some levels_consumed_pct))
      (yield (Metric "ms_intune_app_licenses_available" (Fin (inject_Z lic_units_available))
                None)
       done)))))))
  end.

End AppLicenses.

(** ** Name disambiguation of the token and connector parsers

    [parse_ms_intune_apple_ade_tokens], [parse_ms_intune_apple_vpp_tokens]
    and [parse_ms_intune_cert_connectors] share one loop, which differs
    only in the name field and the identifier field it reads:
<<
    parsed = {}
    token_names = set()
    for item in json.loads(...):
        token_name = item["token_name"]
        if token_name in token_names:
            token_name_unique = f"{token_name} {item['token_id'][-4:]}"
        else:
            token_name_unique = token_name
            token_names.add(token_name)
        parsed[token_name_unique] = AdeToken( **item)
>>
    It is modelled once, over the decoded JSON array. *)
Section UniqueNames.
Context {R : Type} (name_of id_of : R -> string).

(** The key [token_name_unique] of [item] and the updated set of seen
    names. *)
Definition unique_name (names : gset string) (item : R) : string * gset string :=
  let token_name := name_of item in
  if decide (token_name ∈ names) then
    (token_name +:+ " " +:+ py_last4 (id_of item), names)
  else (token_name, {[token_name]} ∪ names).

Fixpoint parse_unique_loop (names : gset string) (parsed : gmap string R)
    (items : list R) : gmap string R :=
  match items with
  | [] => parsed
  | item :: rest =>
      let '(token_name_unique, names') := unique_name names item in
      parse_unique_loop names' (<[token_name_unique := item]> parsed) rest
  end.

Definition parse_unique (items : list R) : gmap string R :=
  parse_unique_loop ∅ ∅ items.

(** The sequence of keys the loop computes, one per input record. *)
Fixpoint unique_keys_loop (names : gset string) (items : list R) : list string :=
  match items with
  | [] => []
  | item :: rest =>
      let '(token_name_unique, names') := unique_name names item in
      token_name_unique :: unique_keys_loop names' rest
  end.

Definition unique_keys (items : list R) : list string := unique_keys_loop ∅ items.

End UniqueNames.

(** ** The expiration block of the expiry checks

    Lines 118-139 of [check_ms_intune_apple_ade_tokens], 123-144 of
    [check_ms_intune_apple_vpp_tokens] and 84-105 of
    [check_ms_intune_apple_mdm_push_cert] are the same code up to the
    metric name:
<<
    if timespan > 0:
        yield from check_levels(timespan, levels_lower=(params_levels),
            metric_name=METRIC, label="Remaining", render_func=render.timespan)
    else:
        yield from check_levels(timespan, levels_lower=(params_levels),
            label="Expired", render_func=lambda x: f"{render.timespan(abs(x))} ago")
        yield Metric(name=METRIC, value=0.0, levels=params_levels[1])
>>
    [params_levels] is [params.get(KEY)], [None] when the key is absent;
    subscripting [None] raises [TypeError]. *)
Definition expiration_block (host : Host) (timespan : Q)
    (params_levels : option Levels) (metric : string) : CheckResult :=
  if Qlt_le_dec 0 timespan then
    check_levels timespan params_levels (Some metric) "Remaining" (render_timespan host)
  else
    yield_from
      (check_levels timespan params_levels None "Expired"
         (fun x => render_timespan host (Qabs x) +:+ " ago"))
      (match params_levels with
       | None => raise TypeError
       | Some lv => yield (Metric metric (Fin 0) (levels_index1 lv)) done
       end).

(** ** [ms_intune_apple_ade_tokens.py] *)
Module AdeTokens.

Record AdeToken := {
  token_appleid : string;
  token_expiration : string;
  token_id : string;
  token_name : string;
  token_type : string
}.

(** The parameter mapping: the value of its key ["token_expiration"],
    [None] when absent. *)
Record Params := { params_token_expiration : option Levels }.

Definition check_default_parameters : Params :=
  {| params_token_expiration := Some (Fixed 1209600 432000) |}.

Definition parse_ms_intune_apple_ade_tokens (items : list AdeToken)
    : gmap string AdeToken :=
  parse_unique token_name token_id items.

Definition discover_ms_intune_apple_ade_tokens (section : gmap string AdeToken)
    : list Service :=
  discover_keys section.

Definition check_ms_intune_apple_ade_tokens (host : Host) (item : string)
    (params : Params) (section : gmap string AdeToken) : CheckResult :=
  match section !! item with
  | None => done
  | Some token =>
      let params_levels_token_expiration := params_token_expiration params in
      match fromisoformat host (token_expiration token) with
      | None => raise ValueError
      | Some token_expiration_timestamp =>
          let token_expiration_timestamp_render :=
            render_datetime host token_expiration_timestamp in
          let token_expiration_timespan :=
            (token_expiration_timestamp - now host)%Q in
          let result_details :=
            String.concat newline
              [ "Expiration time: " +:+ token_expiration_timestamp_render;
                "Token name: " +:+ token_name token;
                "Token ID: " +:+ token_id token;
                "Token type: " +:+ token_type token;
                "Apple ID: " +:+ token_appleid token ] in
          yield_from
            (expiration_block host token_expiration_timespan
               params_levels_token_expiration
               "ms_intune_apple_ade_tokens_remaining_validity")
            (yield (Result OK ("Expiration time: " +:+ token_expiration_timestamp_render)
                      result_details) done)
      end
  end.

End AdeTokens.

(** ** [ms_intune_apple_vpp_tokens.py] *)
Module VppTokens.

Record AppleVppToken := {
  token_appleid : string;
  token_expiration : string;
  token_id : string;
  token_name : string;
  token_state : string
}.

Record Params := { params_token_expiration : option Levels }.

Definition check_default_parameters : Params :=
  {| params_token_expiration := Some (Fixed 1209600 432000) |}.

Definition parse_ms_intune_apple_vpp_tokens (items : list AppleVppToken)
    : gmap string AppleVppToken :=
  parse_unique token_name token_id items.

Definition discover_ms_intune_apple_vpp_tokens (section : gmap string AppleVppToken)
    : list Service :=
  discover_keys section.

Definition check_ms_intune_apple_vpp_tokens (host : Host) (item : string)
    (params : Params) (section : gmap string AppleVppToken) : CheckResult :=
  match section !! item with
  | None => done
  | Some token =>
      let params_levels_token_expiration := params_token_expiration params in
      match fromisoformat host (token_expiration token) with
      | None => raise ValueError
      | Some token_expiration_timestamp =>
          let token_expiration_timestamp_render :=
            render_datetime host token_expiration_timestamp in
          let token_expiration_timespan :=
            (token_expiration_timestamp - now host)%Q in
          let result_details :=
            String.concat newline
              [ "Expiration time: " +:+ token_expiration_timestamp_render;
                "Token name: " +:+ token_name token;
                "Token ID: " +:+ token_id token;
                "Apple ID: " +:+ token_appleid token;
                "State: " +:+ token_state token ] in
          let result_summary :=
            "Expiration time: " +:+ token_expiration_timestamp_render
            +:+ ", State: " +:+ token_state token in
          yield_from
            (expiration_block host token_expiration_timespan
               params_levels_token_expiration
               "ms_intune_apple_vpp_tokens_remaining_validity")
            (if negb (String.eqb (token_state token) "valid") then
               yield (Result CRIT result_summary result_details) done
             else
               yield (Result OK result_summary result_details) done)
      end
  end.

End VppTokens.

(** ** [ms_intune_cert_connectors.py] *)
Module CertConnectors.

Record CertConnector := {
  connector_connection_last : string;
  connector_id : string;
  connector_name : string;
  connector_state : string;
  connector_version : string
}.

Definition parse_ms_intune_cert_connectors (items : list CertConnector)
    : gmap string CertConnector :=
  parse_unique connector_name connector_id items.

Definition discover_ms_intune_cert_connectors (section : gmap string CertConnector)
    : list Service :=
  discover_keys section.

Definition check_ms_intune_cert_connectors (host : Host) (item : string)
    (section : gmap string CertConnector) : CheckResult :=
  match section !! item with
  | None => done
  | Some connector =>
      match fromisoformat host (connector_connection_last connector) with
      | None => raise ValueError
      | Some connector_connection_last_timestamp =>
          let connector_connection_last_timestamp_render :=
            render_datetime host connector_connection_last_timestamp in
          let result_summary :=
            "State: " +:+ connector_state connector +:+ ", Version: "
            +:+ connector_version connector in
          let result_details :=
            String.concat newline
              [ "Connector name: " +:+ connector_name connector;
                "Connector ID: " +:+ connector_id connector;
                "Connector version: " +:+ connector_version connector;
                "Last connected: " +:+ connector_connection_last_timestamp_render;
                "State: " +:+ connector_state connector ] in
          if negb (String.eqb (connector_state connector) "active") then
            yield (Result CRIT result_summary result_details) done
          else
            yield (Result OK result_summary result_details) done
      end
  end.

End CertConnectors.

(** ** [ms_intune_apple_mdm_push_cert.py] *)
Module MdmPushCert.

Record ApplePushCert := {
  cert_appleid : string;
  cert_expiration : string
}.

(** The parameter mapping: the value of its key ["cert_expiration"],
    [None] when absent. *)
Record Params := { params_cert_expiration : option Levels }.

Definition check_default_parameters : Params :=
  {| params_cert_expiration := Some (Fixed 1209600 432000) |}.

(** [parse_ms_intune_apple_mdm_push_cert]: [ApplePushCert( **parsed)] of
    the decoded JSON object, here given by its two fields. *)
Definition parse_ms_intune_apple_mdm_push_cert (cert_appleid cert_expiration : string)
    : ApplePushCert :=
  {| cert_appleid := cert_appleid; cert_expiration := cert_expiration |}.

(** [discover_ms_intune_apple_mdm_push_cert]: [yield Service()]. *)
Definition discover_ms_intune_apple_mdm_push_cert (section : ApplePushCert)
    : list Service :=
  [MkService None].

(** The section is the single decoded JSON object.  It is a dataclass
    instance, always truthy, so [if not cert: return] never returns. *)
Definition check_ms_intune_apple_mdm_push_cert (host : Host) (params : Params)
    (cert : ApplePushCert) : CheckResult :=
  let params_levels_cert_expiration := params_cert_expiration params in
  match fromisoformat host (cert_expiration cert) with
  | None => raise ValueError
  | Some cert_expiration_timestamp =>
      let cert_expiration_timestamp_render :=
        render_datetime host cert_expiration_timestamp in
      let cert_expiration_timespan := (cert_expiration_timestamp - now host)%Q in
      yield_from
        (expiration_block host cert_expiration_timespan params_levels_cert_expiration
           "ms_intune_apple_mdm_push_cert_remaining_validity")
        (yield (Result OK ("Expiration time: " +:+ cert_expiration_timestamp_render)
                  ("Expiration time: " +:+ cert_expiration_timestamp_render +:+ newline
                   +:+ "Apple ID: " +:+ cert_appleid cert)) done)
  end.

End MdmPushCert.

(** ** Concrete inputs *)

(** A host whose renderings are empty strings, whose clock reads [t] and
    whose ISO-8601 parser maps every string to [ts]. *)
Definition plain_host (ts t : Q) : Host := {|
  render_percent := fun _ => "";
  render_timespan := fun _ => "";
  render_datetime := fun _ => "";
  fmt_num := fun _ => "";
  fromisoformat := fun _ => Some ts;
  now := t
|}.

Definition app (name type_ : string) (total consumed : Z) : AppLicenses.IntuneApp := {|
  AppLicenses.app_type := type_;
  AppLicenses.app_name := name;
  AppLicenses.app_publisher := "P";
  AppLicenses.app_license_total := total;
  AppLicenses.app_license_consumed := consumed;
  AppLicenses.app_assigned := true
|}.

Definition ade (name id : string) : AdeTokens.AdeToken := {|
  AdeTokens.token_appleid := "ade@domain.td";
  AdeTokens.token_expiration := "2030-01-01T00:00:00Z";
  AdeTokens.token_id := id;
  AdeTokens.token_name := name;
  AdeTokens.token_type := "dep"
|}.

Definition vpp (name id state : string) : VppTokens.AppleVppToken := {|
  VppTokens.token_appleid := "vpp@domain.td";
  VppTokens.token_expiration := "2030-01-01T00:00:00Z";
  VppTokens.token_id := id;
  VppTokens.token_name := name;
  VppTokens.token_state := state
|}.

Definition mdm_cert : MdmPushCert.ApplePushCert := {|
  MdmPushCert.cert_appleid := "mail@domain.de";
  MdmPushCert.cert_expiration := "2030-01-01T00:00:00Z"
|}.

Definition connector (name id state : string) : CertConnectors.CertConnector := {|
  CertConnectors.connector_connection_last := "2025-01-01T00:00:00.0000000Z";
  CertConnectors.connector_id := id;
  CertConnectors.connector_name := name;
  CertConnectors.connector_state := state;
  CertConnectors.connector_version := "6.2301.1.0"
|}.

(** ** Observations on check outputs *)

(** The values of the metrics named [name], in the order they are yielded. *)
Fixpoint metric_values (name : string) (outs : list Output) : list PyFloat :=
  match outs with
  | [] => []
  | Metric n v _ :: rest =>
      if String.eqb n name then v :: metric_values name rest
      else metric_values name rest
  | Result _ _ _ :: rest => metric_values name rest
  end.

(** The label and the rendered value the expiration block gives for a
    remaining time. *)
Definition expiry_label (remaining : Q) : string :=
  if Qlt_le_dec 0 remaining then "Remaining" else "Expired".

Definition expiry_rendered (host : Host) (remaining : Q) : string :=
  if Qlt_le_dec 0 remaining then render_timespan host remaining
  else render_timespan host (Qabs remaining) +:+ " ago".

(** The outputs open with a result whose summary has the framing of the
    sign of [remaining], and the only value of the metric [metric] is
    [remaining] when it is positive and 0 otherwise. *)
Definition frames_expiry (host : Host) (remaining : Q) (metric : string)
    (outs : list Output) : Prop :=
  (exists st levels_text details rest,
      outs = Result st (expiry_label remaining +:+ ": "
                        +:+ expiry_rendered host remaining +:+ levels_text) details
             :: rest) /\
  metric_values metric outs = [Fin (if Qlt_le_dec 0 remaining then remaining else 0%Q)].

(** The derived value the app-licenses threshold block compares in each
    mode, as the code computes it: the available percentage
    [lic_units_available / app_license_total * 100] as a double, or the
    available units. *)
Definition compared_value (mode : string) (license : AppLicenses.IntuneApp)
    : Exc + PyFloat :=
  let total := AppLicenses.app_license_total license in
  let available := (total - AppLicenses.app_license_consumed license)%Z in
  if String.eqb mode "lic_unit_available_lower_pct"
  then match py_int_truediv available total with
       | inl e => inl e
       | inr q => inr (fl (q * 100))
       end
  else inr (Fin (inject_Z available)).

(** The service name [f"{item['app_name']} - {item['app_type']}"] the
    app-licenses parser gives a record. *)
Definition app_service_name (item : AppLicenses.IntuneApp) : string :=
  AppLicenses.app_name item +:+ " - " +:+ AppLicenses.app_type item.

(** The order of the monitoring states: OK < WARN < CRIT. *)
Definition severity (st : State) : nat :=
  match st with OK => 0 | WARN => 1 | CRIT => 2 end.

(** The state of the first result of a check run, if any. *)
Definition first_state (r : CheckResult) : option State :=
  match r.1 with
  | Result st _ _ :: _ => Some st
  | _ => None
  end.

(** The states of all results of a check run. *)
Definition result_states (outs : list Output) : list State :=
  omap (fun o => match o with Result st _ _ => Some st | Metric _ _ _ => None end) outs.

(** The state [check_levels] gives a value against levels that are
    present in the parameters. *)
Definition levels_state (value : Q) (lv : Levels) : State :=
  match lv with
  | NoLevels => OK
  | Fixed w c => lower_state value w c
  end.

(** The set of names seen by the disambiguation loop after [items]. *)
Fixpoint seen_after {R} (name_of id_of : R -> string) (names : gset string)
    (items : list R) : gset string :=
  match items with
  | [] => names
  | item :: rest => seen_after name_of id_of (unique_name name_of id_of names item).2 rest
  end.

(** ** Facts about the disambiguation loop *)

Lemma string_length_app (a b : string) :
  String.length (a +:+ b) = (String.length a + String.length b)%nat.
Proof. induction a as [|c a IH]; simpl; [done | by rewrite IH]. Qed.

Lemma suffixed_name_neq (n x : string) : n <> n +:+ " " +:+ x.
Proof.
  intros E. apply (f_equal String.length) in E.
  rewrite string_length_app in E. simpl in E. lia.
Qed.

Section UniqueNamesFacts.
Context {R : Type} (name_of id_of : R -> string).

Lemma unique_keys_loop_app names (l1 l2 : list R) :
  unique_keys_loop name_of id_of names (l1 ++ l2) =
  (unique_keys_loop name_of id_of names l1
   ++ unique_keys_loop name_of id_of (seen_after name_of id_of names l1) l2)%list.
Proof.
  revert names. induction l1 as [|a l1 IH]; intros names; simpl; [done|].
  destruct (unique_name name_of id_of names a) as [k names'] eqn:E. simpl.
  by rewrite IH.
Qed.

Lemma length_unique_keys_loop names (l : list R) :
  length (unique_keys_loop name_of id_of names l) = length l.
Proof.
  revert names. induction l as [|a l IH]; intros names; simpl; [done|].
  destruct (unique_name name_of id_of names a). simpl. by rewrite IH.
Qed.

Lemma seen_after_spec names (l : list R) :
  seen_after name_of id_of names l = names ∪ list_to_set (name_of <$> l).
Proof.
  revert names. induction l as [|a l IH]; intros names; simpl.
  - set_solver.
  - rewrite IH. unfold unique_name. case_decide; simpl; set_solver.
Qed.

Lemma unique_keys_loop_fresh names (r : R) rest :
  name_of r ∉ names ->
  unique_keys_loop name_of id_of names (r :: rest) =
  name_of r :: unique_keys_loop name_of id_of ({[name_of r]} ∪ names) rest.
Proof. intros H. simpl. unfold unique_name. by case_decide. Qed.

Lemma unique_keys_loop_seen names (r : R) rest :
  name_of r ∈ names ->
  unique_keys_loop name_of id_of names (r :: rest) =
  (name_of r +:+ " " +:+ py_last4 (id_of r)) :: unique_keys_loop name_of id_of names rest.
Proof. intros H. simpl. unfold unique_name. by case_decide. Qed.

Lemma parse_unique_loop_dom_mono names (m : gmap string R) l k :
  k ∈ dom m -> k ∈ dom (parse_unique_loop name_of id_of names m l).
Proof.
  revert names m. induction l as [|a l IH]; intros names m Hk; simpl; [done|].
  destruct (unique_name name_of id_of names a). apply IH.
  rewrite dom_insert_L. set_solver.
Qed.

Lemma unique_keys_in_dom names (m : gmap string R) l k :
  k ∈ unique_keys_loop name_of id_of names l ->
  k ∈ dom (parse_unique_loop name_of id_of names m l).
Proof.
  revert names m. induction l as [|a l IH]; intros names m Hk; simpl in *.
  - by apply elem_of_nil in Hk.
  - destruct (unique_name name_of id_of names a) as [k' names'].
    apply elem_of_cons in Hk as [->|Hk].
    + apply parse_unique_loop_dom_mono. rewrite dom_insert_L. set_solver.
    + by apply IH.
Qed.

End UniqueNamesFacts.

(** ** C2: disambiguation of two records sharing a display name *)

(** Claim C2 (amended).  In the loop shared by the ADE-token, VPP-token and
    connector parsers ([parse_ms_intune_apple_ade_tokens],
    [parse_ms_intune_apple_vpp_tokens] and [parse_ms_intune_cert_connectors]
    are [parse_unique] at their name and identifier fields): when two
    records [r1] before [r2] share the display name [n] and no other record
    before [r2] carries it, the key computed for [r1] is [n], the key
    computed for [r2] is [n], a space and the last 4 characters of its
    identifier; the two keys differ and both are keys of the parsed
    mapping. *)
Theorem parse_unique_two_same_name {R} (name_of id_of : R -> string)
    (pre mid post : list R) (r1 r2 : R) (n : string) :
  Forall (fun r => name_of r <> n) pre ->
  Forall (fun r => name_of r <> n) mid ->
  name_of r1 = n -> name_of r2 = n ->
  let items := (pre ++ r1 :: mid ++ r2 :: post)%list in
  let k2 := n +:+ " " +:+ py_last4 (id_of r2) in
  unique_keys name_of id_of items !! length pre = Some n /\
  unique_keys name_of id_of items !! (length pre + S (length mid))%nat = Some k2 /\
  n <> k2 /\
  n ∈ dom (parse_unique name_of id_of items) /\
  k2 ∈ dom (parse_unique name_of id_of items).
Proof.
  intros Hpre Hmid H1 H2 items k2.
  assert (Hn1 : name_of r1 ∉ seen_after name_of id_of ∅ pre).
  { rewrite seen_after_spec, H1. rewrite Forall_forall in Hpre.
    intros Hin. apply elem_of_union in Hin as [Hin|Hin]; [set_solver|].
    apply elem_of_list_to_set, list_elem_of_fmap in Hin as (r & Hr & Hin).
    by apply (Hpre r). }
  set (S1 := {[name_of r1]} ∪ seen_after name_of id_of ∅ pre).
  assert (Hn2 : name_of r2 ∈ seen_after name_of id_of S1 mid).
  { rewrite seen_after_spec. unfold S1. rewrite H1, H2. set_solver. }
  assert (Hkeys : unique_keys name_of id_of items =
    ((unique_keys_loop name_of id_of ∅ pre ++ n :: unique_keys_loop name_of id_of S1 mid)
     ++ k2 :: unique_keys_loop name_of id_of (seen_after name_of id_of S1 mid) post)%list).
  { unfold unique_keys, items. rewrite unique_keys_loop_app.
    rewrite (unique_keys_loop_fresh _ _ _ _ _ Hn1). fold S1.
    rewrite unique_keys_loop_app, (unique_keys_loop_seen _ _ _ _ _ Hn2).
    rewrite H1, H2. unfold k2. rewrite <- !app_assoc. done. }
  assert (Hk1 : unique_keys name_of id_of items !! length pre = Some n).
  { rewrite Hkeys, <- app_assoc. apply list_lookup_middle.
    by rewrite length_unique_keys_loop. }
  assert (Hk2 : unique_keys name_of id_of items !! (length pre + S (length mid))%nat
                = Some k2).
  { rewrite Hkeys. apply list_lookup_middle.
    rewrite length_app. simpl. rewrite !length_unique_keys_loop. lia. }
  split; [done|]. split; [done|]. split; [apply suffixed_name_neq|].
  split; unfold parse_unique; apply unique_keys_in_dom;
    eapply list_elem_of_lookup_2; [exact Hk1 | exact Hk2].
Qed.

Lemma parse_unique_two_same_name_witness :
  let ids := [ade "A" "id-0001"; ade "B" "id-0002"; ade "A" "id-0003"] in
  unique_keys AdeTokens.token_name AdeTokens.token_id ids !! 0%nat = Some "A" /\
  unique_keys AdeTokens.token_name AdeTokens.token_id ids !! 2%nat = Some "A 0003" /\
  "A" <> "A 0003" /\
  "A" ∈ dom (AdeTokens.parse_ms_intune_apple_ade_tokens ids) /\
  "A 0003" ∈ dom (AdeTokens.parse_ms_intune_apple_ade_tokens ids).
Proof.
  exact (parse_unique_two_same_name AdeTokens.token_name AdeTokens.token_id
           [] [ade "B" "id-0002"] [] (ade "A" "id-0001") (ade "A" "id-0003") "A"
           ltac:(constructor) ltac:(repeat constructor; discriminate)
           eq_refl eq_refl).
Defined.

(** Claim C2, counterexample.  The app-licenses parser keys a record by
    ["app_name - app_type"] and does not disambiguate: two records with
    the same name and type give one key, the second record replacing the
    first. *)
Lemma app_licenses_parse_same_name_one_key :
  AppLicenses.parse_ms_intune_app_licenses [app "X" "T" 10 1; app "X" "T" 20 2]
  = {[ "X - T" := app "X" "T" 20 2 ]}.
Proof. reflexivity. Qed.

(** ** C9: the disambiguation does not keep every record *)

Lemma size_two_keys {A} (n s : string) (x y z : A) :
  n <> s -> size (<[s := z]> (<[s := y]> (<[n := x]> (∅ : gmap string A)))) = 2%nat.
Proof.
  intros Hne. rewrite insert_insert_eq.
  rewrite map_size_insert_None; [| by rewrite lookup_insert_ne, lookup_empty].
  rewrite map_size_insert_None; [| apply lookup_empty].
  by rewrite map_size_empty.
Qed.

(** Claim C9.  [parse_ms_intune_apple_ade_tokens] returns fewer entries
    than input records on three records [r1], [r2], [r3] when [r1] and [r2]
    share a token name and either [r3] shares it too and its token id ends
    in the same 4 characters as that of [r2] (the two suffixed keys are
    equal), or [r3]'s token name is the suffixed key of [r2] (a suffixed key
    is never added to the seen names, so [r3] keeps its raw name):
    3 records give a mapping of 2 entries. *)
Theorem ade_parse_fewer_entries (r1 r2 r3 : AdeTokens.AdeToken) :
  AdeTokens.token_name r2 = AdeTokens.token_name r1 ->
  (AdeTokens.token_name r3 = AdeTokens.token_name r1 /\
   py_last4 (AdeTokens.token_id r3) = py_last4 (AdeTokens.token_id r2)) \/
  AdeTokens.token_name r3 =
    AdeTokens.token_name r2 +:+ " " +:+ py_last4 (AdeTokens.token_id r2) ->
  size (AdeTokens.parse_ms_intune_apple_ade_tokens [r1; r2; r3]) = 2%nat /\
  (size (AdeTokens.parse_ms_intune_apple_ade_tokens [r1; r2; r3])
   < length [r1; r2; r3])%nat.
Proof.
  intros H12 H3.
  set (n := AdeTokens.token_name r1) in *.
  set (s := n +:+ " " +:+ py_last4 (AdeTokens.token_id r2)).
  assert (Hns : n <> s) by apply suffixed_name_neq.
  assert (Hmap : AdeTokens.parse_ms_intune_apple_ade_tokens [r1; r2; r3] =
                 <[s := r3]> (<[s := r2]> (<[n := r1]> ∅))).
  { unfold AdeTokens.parse_ms_intune_apple_ade_tokens, parse_unique.
    cbn [parse_unique_loop]. unfold unique_name at 1.
    rewrite decide_False by set_solver. fold n.
    cbn [parse_unique_loop]. unfold unique_name at 1.
    rewrite decide_True by (rewrite H12; set_solver). rewrite H12. fold s.
    cbn [parse_unique_loop]. unfold unique_name.
    destruct H3 as [[E3 E4] | E3].
    - rewrite decide_True by (rewrite E3; set_solver).
      rewrite E3, E4. reflexivity.
    - rewrite decide_False.
      + rewrite E3, H12. reflexivity.
      + rewrite E3, H12. fold s. set_solver. }
  rewrite Hmap, size_two_keys by exact Hns. simpl. lia.
Qed.

Lemma ade_parse_fewer_entries_witness :
  size (AdeTokens.parse_ms_intune_apple_ade_tokens
          [ade "A" "id-1234"; ade "A" "ix-1234"; ade "A" "iy-1234"]) = 2%nat /\
  (size (AdeTokens.parse_ms_intune_apple_ade_tokens
           [ade "A" "id-1234"; ade "A" "ix-1234"; ade "A" "iy-1234"])
   < length [ade "A" "id-1234"; ade "A" "ix-1234"; ade "A" "iy-1234"])%nat.
Proof.
  apply ade_parse_fewer_entries; [reflexivity | left; split; reflexivity].
Defined.

(** ** Binary64 rounding *)

Section Binary64.
Local Open Scope Q_scope.

Lemma pow2_pos (k : Z) : 0 < 2 ^ k.
Proof. apply Qpower_0_lt. reflexivity. Qed.

Lemma pow2_nz (k : Z) : ~ 2 ^ k == 0.
Proof. pose proof (pow2_pos k). lra. Qed.

Lemma pow2_Z (n : Z) : (0 <= n)%Z -> 2 ^ n == inject_Z (2 ^ n).
Proof. intros Hn. rewrite Zpower_Qpower by exact Hn. reflexivity. Qed.

Lemma pow2_add (m n : Z) : 2 ^ (m + n) == 2 ^ m * 2 ^ n.
Proof. apply Qpower_plus. discriminate. Qed.

Lemma pow2_le (m n : Z) : (m <= n)%Z -> 2 ^ m <= 2 ^ n.
Proof. intros H. apply Qpower_le_compat_l; [exact H | discriminate]. Qed.

Lemma pow2_lt (m n : Z) : (m < n)%Z -> 2 ^ m < 2 ^ n.
Proof. intros H. apply Qpower_lt_compat_l; [exact H | reflexivity]. Qed.

Lemma pow2_lt_inv (m n : Z) : 2 ^ m < 2 ^ n -> (m < n)%Z.
Proof. intros H. exact (Qpower_lt_compat_l_inv 2 m n H eq_refl). Qed.

Lemma Qinv_le_anti (x y : Q) : 0 < x -> x <= y -> / y <= / x.
Proof.
  intros Hx Hxy. destruct (Qle_lt_or_eq x y Hxy) as [Hlt | Heq].
  - apply Qlt_le_weak. apply (proj1 (Qinv_lt_contravar x y Hx ltac:(lra))). exact Hlt.
  - rewrite Heq. apply Qle_refl.
Qed.

Lemma qlog2_spec (a : Q) : 0 < a -> 2 ^ qlog2 a <= a /\ a < 2 ^ (qlog2 a + 1).
Proof.
  intros Ha. unfold qlog2. destruct (Qle_bool 1 a) eqn:E.
  - apply Qle_bool_iff in E.
    assert (Hf : (1 <= Qfloor a)%Z).
    { change 1%Z with (Qfloor 1). now apply Qfloor_resp_le. }
    destruct (Z.log2_spec (Qfloor a)) as [Hlo Hhi]; [lia|].
    pose proof (Z.log2_nonneg (Qfloor a)).
    rewrite !pow2_Z by lia. split.
    + apply Qle_trans with (inject_Z (Qfloor a)); [now rewrite <- Zle_Qle | apply Qfloor_le].
    + apply Qlt_le_trans with (inject_Z (Qfloor a + 1)); [apply Qlt_floor|].
      rewrite <- Zle_Qle. rewrite Z.add_1_r. lia.
  - assert (Ha1 : a < 1) by (apply Qnot_le_lt; intros H; apply Qle_bool_iff in H; congruence).
    assert (Hinv : 1 < / a).
    { rewrite <- Qinv_involutive with (q := 1).
      apply (Qinv_lt_contravar a 1); [exact Ha | reflexivity | exact Ha1]. }
    set (m := Qceiling (/ a)).
    assert (Hm : (1 < m)%Z).
    { rewrite Zlt_Qlt. apply Qlt_le_trans with (/ a); [exact Hinv | apply Qle_ceiling]. }
    destruct (Z.log2_up_spec m Hm) as [Hlo Hhi].
    pose proof (Z.log2_up_pos m Hm) as HL.
    set (L := Z.log2_up m) in *.
    split.
    + rewrite Qpower_opp, <- (Qinv_involutive a).
      apply Qinv_le_anti; [apply Qinv_lt_0_compat, Ha|].
      rewrite pow2_Z by lia.
      apply Qle_trans with (inject_Z m); [apply Qle_ceiling | now rewrite <- Zle_Qle].
    + replace (- L + 1)%Z with (- (L - 1))%Z by lia.
      rewrite Qpower_opp, <- (Qinv_involutive a).
      apply (proj1 (Qinv_lt_contravar (2 ^ (L - 1)) (/ a) (pow2_pos _)
                      (Qinv_lt_0_compat a Ha))).
      rewrite pow2_Z by lia.
      apply Qle_lt_trans with (inject_Z (m - 1)); [rewrite <- Zle_Qle; replace (L - 1)%Z with (Z.pred L) by lia; lia|].
      apply Qceiling_lt.
Qed.

Lemma qlog2_unique (a : Q) (e : Z) : 2 ^ e <= a -> a < 2 ^ (e + 1) -> qlog2 a = e.
Proof.
  intros Hlo Hhi.
  assert (Ha : 0 < a) by (pose proof (pow2_pos e); lra).
  destruct (qlog2_spec a Ha) as [Hlo' Hhi'].
  assert (H1 : (e < qlog2 a + 1)%Z) by (apply pow2_lt_inv; lra).
  assert (H2 : (qlog2 a < e + 1)%Z) by (apply pow2_lt_inv; lra).
  lia.
Qed.

Lemma qlog2_pow2 (n : Z) : qlog2 (2 ^ n) = n.
Proof. apply qlog2_unique; [apply Qle_refl | apply pow2_lt; lia]. Qed.

Lemma qlog2_mono (a b : Q) : 0 < a -> a <= b -> (qlog2 a <= qlog2 b)%Z.
Proof.
  intros Ha Hab.
  destruct (qlog2_spec a Ha) as [Ha1 _]. destruct (qlog2_spec b ltac:(lra)) as [_ Hb2].
  assert (H : (qlog2 a < qlog2 b + 1)%Z) by (apply pow2_lt_inv; lra). lia.
Qed.

Lemma round_half_even_Z (z : Z) : round_half_even (inject_Z z) = z.
Proof.
  unfold round_half_even. rewrite Qfloor_Z.
  assert (E : inject_Z z - inject_Z z == 0) by ring. rewrite E. reflexivity.
Qed.

Lemma round_half_even_mono (x y : Q) : x <= y -> (round_half_even x <= round_half_even y)%Z.
Proof.
  intros Hxy. unfold round_half_even.
  pose proof (Qfloor_le x). pose proof (Qlt_floor x).
  pose proof (Qfloor_le y). pose proof (Qlt_floor y).
  pose proof (Qfloor_resp_le x y Hxy).
  destruct (Z.eq_dec (Qfloor x) (Qfloor y)) as [Ef | Nf].
  - rewrite <- Ef.
    destruct (Qcompare_spec (x - inject_Z (Qfloor x)) (1 # 2));
      destruct (Qcompare_spec (y - inject_Z (Qfloor x)) (1 # 2));
      destruct (Z.even (Qfloor x)); first [lia | rewrite <- Ef in *; lra].
  - destruct (Qcompare_spec (x - inject_Z (Qfloor x)) (1 # 2));
      destruct (Qcompare_spec (y - inject_Z (Qfloor y)) (1 # 2));
      destruct (Z.even (Qfloor x)); destruct (Z.even (Qfloor y)); lia.
Qed.

Lemma round_half_even_compat (x y : Q) : x == y -> round_half_even x = round_half_even y.
Proof.
  intros H. apply Z.le_antisymm; apply round_half_even_mono; rewrite H; apply Qle_refl.
Qed.

Lemma round_quantum_mono (k : Z) (a b : Q) : a <= b -> round_quantum k a <= round_quantum k b.
Proof.
  intros Hab. unfold round_quantum. pose proof (pow2_pos k).
  apply Qmult_le_compat_r; [|lra]. rewrite <- Zle_Qle. apply round_half_even_mono.
  unfold Qdiv. apply Qmult_le_compat_r; [exact Hab|].
  apply Qlt_le_weak, Qinv_lt_0_compat; lra.
Qed.

Lemma round_quantum_pow2 (k j : Z) : (k <= j)%Z -> round_quantum k (2 ^ j) == 2 ^ j.
Proof.
  intros Hkj. unfold round_quantum.
  assert (E : 2 ^ j / 2 ^ k == inject_Z (2 ^ (j - k))).
  { rewrite <- pow2_Z by lia. replace j with ((j - k) + k)%Z at 1 by lia.
    rewrite pow2_add. field. apply pow2_nz. }
  rewrite (round_half_even_compat _ _ E), round_half_even_Z, <- pow2_Z by lia.
  rewrite <- pow2_add. replace (j - k + k)%Z with j by lia. reflexivity.
Qed.

Lemma round_quantum_nonneg (k : Z) (a : Q) : 0 <= a -> 0 <= round_quantum k a.
Proof.
  intros Ha. pose proof (round_quantum_mono k 0 a Ha).
  assert (E : round_quantum k 0 == 0).
  { unfold round_quantum. rewrite (round_half_even_compat _ (inject_Z 0)).
    - rewrite round_half_even_Z. reflexivity.
    - field. apply pow2_nz. }
  lra.
Qed.

Lemma round_pos_mono (a b : Q) : 0 < a -> a <= b -> round_pos a <= round_pos b.
Proof.
  intros Ha Hab. unfold round_pos, quantum_exp.
  pose proof (qlog2_mono a b Ha Hab) as He.
  destruct (qlog2_spec a Ha) as [_ Ha2]. destruct (qlog2_spec b ltac:(lra)) as [Hb1 _].
  destruct (Z.eq_dec (Z.max (qlog2 a - 52) (-1074)) (Z.max (qlog2 b - 52) (-1074)))
    as [Ek | Nk].
  - rewrite Ek. now apply round_quantum_mono.
  - assert (Hlt : (qlog2 a < qlog2 b)%Z) by lia.
    pose proof (pow2_le (qlog2 a + 1) (qlog2 b) ltac:(lia)).
    pose proof (round_quantum_mono (Z.max (qlog2 a - 52) (-1074)) a (2 ^ qlog2 b)
                  ltac:(lra)).
    pose proof (round_quantum_mono (Z.max (qlog2 b - 52) (-1074)) (2 ^ qlog2 b) b Hb1).
    pose proof (round_quantum_pow2 (Z.max (qlog2 a - 52) (-1074)) (qlog2 b) ltac:(lia)).
    pose proof (round_quantum_pow2 (Z.max (qlog2 b - 52) (-1074)) (qlog2 b) ltac:(lia)).
    lra.
Qed.

Lemma round_pos_pow2 (n : Z) : (-1074 <= n)%Z -> round_pos (2 ^ n) == 2 ^ n.
Proof.
  intros Hn. unfold round_pos, quantum_exp. rewrite qlog2_pow2.
  apply round_quantum_pow2. lia.
Qed.

Lemma round_pos_nonneg (a : Q) : 0 <= a -> 0 <= round_pos a.
Proof. intros Ha. now apply round_quantum_nonneg. Qed.

Lemma round_pos_bound (a : Q) (n : Z) :
  (-1074 <= n)%Z -> 0 < a -> a <= 2 ^ n -> 0 <= round_pos a <= 2 ^ n.
Proof.
  intros Hn Ha Han. pose proof (round_pos_mono a (2 ^ n) Ha Han).
  pose proof (round_pos_pow2 n Hn). pose proof (round_pos_nonneg a ltac:(lra)). lra.
Qed.

(** A rational within [2^n], [n <= 1023], rounds to a finite double
    within [2^n]. *)
Lemma fl_bound (q : Q) (n : Z) :
  (-1074 <= n <= 1023)%Z -> Qabs q <= 2 ^ n ->
  exists v, fl q = Fin v /\ Qabs v <= 2 ^ n.
Proof.
  intros Hn Hq. pose proof (pow2_le n 1023 ltac:(lia)). pose proof (pow2_lt 1023 1024 ltac:(lia)).
  apply Qabs_Qle_condition in Hq. unfold fl.
  destruct (Qcompare_spec q 0) as [E | E | E].
  - exists 0. split; [reflexivity|]. pose proof (pow2_pos n). change (Qabs 0) with 0. lra.
  - destruct (round_pos_bound (- q) n) as [H1 H2]; [lia | lra | lra|].
    destruct (Qle_bool (2 ^ 1024) (round_pos (- q))) eqn:B.
    + apply Qle_bool_iff in B. lra.
    + eexists. split; [reflexivity|]. apply Qabs_Qle_condition. lra.
  - destruct (round_pos_bound q n) as [H1 H2]; [lia | lra | lra|].
    destruct (Qle_bool (2 ^ 1024) (round_pos q)) eqn:B.
    + apply Qle_bool_iff in B. lra.
    + eexists. split; [reflexivity|]. apply Qabs_Qle_condition. lra.
Qed.

(** Rounding is monotone. *)
Lemma fl_mono (q1 q2 v1 v2 : Q) :
  q1 <= q2 -> fl q1 = Fin v1 -> fl q2 = Fin v2 -> v1 <= v2.
Proof.
  intros Hq H1 H2. unfold fl in H1, H2.
  destruct (Qcompare_spec q1 0) as [E1 | E1 | E1];
    destruct (Qcompare_spec q2 0) as [E2 | E2 | E2];
    cbv beta iota zeta in H1, H2;
    repeat match goal with
           | H : context [Qle_bool ?a ?b] |- _ => destruct (Qle_bool a b)
           end;
    try discriminate; injection H1 as <-; injection H2 as <-;
    try (exfalso; lra).
  - apply Qle_refl.
  - now apply round_pos_nonneg, Qlt_le_weak.
  - pose proof (round_pos_nonneg (- q1) ltac:(lra)). lra.
  - pose proof (round_pos_mono (- q2) (- q1) ltac:(lra) ltac:(lra)). lra.
  - pose proof (round_pos_nonneg (- q1) ltac:(lra)). pose proof (round_pos_nonneg q2 ltac:(lra)). lra.
  - now apply round_pos_mono.
Qed.

End Binary64.

(** ** The app-licenses check *)

Lemma inject_Z_nonzero (z : Z) : z <> 0%Z -> ~ (inject_Z z == 0).
Proof. intros H E. apply H. exact (proj1 (inject_Z_injective z 0) E). Qed.

Lemma inject_Z_sub (a b : Z) : inject_Z (a - b) = (inject_Z a - inject_Z b)%Q.
Proof. unfold Z.sub. by rewrite inject_Z_plus, inject_Z_opp. Qed.

Lemma Qle_bool_false (x y : Q) : Qle_bool x y = false -> (y < x)%Q.
Proof. intros E. apply Qnot_le_lt. intros H. apply Qle_bool_iff in H. congruence. Qed.

Lemma Qabs_div_Z_le (a b : Z) :
  b <> 0%Z -> (Qabs (inject_Z a / inject_Z b) <= inject_Z (Z.abs a))%Q.
Proof.
  intros Hb. unfold Qdiv. rewrite Qabs_Qmult, Qabs_Qinv.
  change (Qabs (inject_Z a)) with (inject_Z (Z.abs a)).
  change (Qabs (inject_Z b)) with (inject_Z (Z.abs b)).
  assert (H1 : (1 <= inject_Z (Z.abs b))%Q)
    by (change 1%Q with (inject_Z 1); rewrite <- Zle_Qle; lia).
  assert (H0 : (0 <= inject_Z (Z.abs a))%Q)
    by (change 0%Q with (inject_Z 0); rewrite <- Zle_Qle; lia).
  apply Qle_shift_div_r; [lra | nra].
Qed.

(** Python [a / b] on [int]s within [2^n]. *)
Lemma py_int_truediv_bound (a b n : Z) :
  b <> 0%Z -> (-1074 <= n <= 1023)%Z -> (Qabs (inject_Z a / inject_Z b) <= 2 ^ n)%Q ->
  exists q, py_int_truediv a b = inr q /\ (Qabs q <= 2 ^ n)%Q.
Proof.
  intros Hb Hn Hq. destruct (fl_bound _ n Hn Hq) as (q & Hfl & Hqb).
  exists q. unfold py_int_truediv. apply Z.eqb_neq in Hb. rewrite Hb, Hfl. auto.
Qed.

Lemma py_int_truediv_fl (a b : Z) (q : Q) :
  py_int_truediv a b = inr q -> fl (inject_Z a / inject_Z b) = Fin q.
Proof.
  unfold py_int_truediv. destruct (Z.eqb b 0); [discriminate|].
  destruct (fl _); congruence.
Qed.

(** [round(x, 2)] of a float within [2^n] raises nothing. *)
Lemma py_round2_bound (q : Q) (n : Z) :
  (0 <= n <= 1016)%Z -> (Qabs q <= 2 ^ n)%Q -> exists v, py_round2 (Fin q) = inr (Fin v).
Proof.
  intros Hn Hq. apply Qabs_Qle_condition in Hq.
  assert (E7 : (2 ^ (n + 7) == 2 ^ n * 128)%Q).
  { rewrite pow2_add. assert (E : (2 ^ 7 == 128)%Q) by reflexivity. rewrite E. reflexivity. }
  assert (EN : (2 ^ (n + 7) == inject_Z (2 ^ (n + 7)))%Q) by (apply pow2_Z; lia).
  pose proof (pow2_pos n).
  set (N := (2 ^ (n + 7))%Z) in *.
  assert (Hm : (- N <= round_half_even (q * 100) <= N)%Z).
  { split.
    - rewrite <- (round_half_even_Z (- N)). apply round_half_even_mono.
      rewrite inject_Z_opp. lra.
    - rewrite <- (round_half_even_Z N). apply round_half_even_mono. lra. }
  set (m := round_half_even (q * 100)) in *.
  assert (Hmq : (- inject_Z N <= inject_Z m <= inject_Z N)%Q).
  { rewrite <- inject_Z_opp, <- !Zle_Qle. lia. }
  destruct (fl_bound (inject_Z m / 100) (n + 7)) as (v & Hv & _); [lia | |].
  - apply Qabs_Qle_condition. unfold Qdiv. change (/ 100)%Q with (1 # 100)%Q. lra.
  - exists v. unfold py_round2. fold m. now rewrite Hv.
Qed.

(** With a nonzero total and at most [2^53] consumed licenses (the range
    of integers a double holds exactly), the expression
    [round(consumed / total * 100, 2)] of the check raises nothing and
    gives a finite float. *)
Lemma consumed_pct_finite (c t : Z) :
  t <> 0%Z -> (Z.abs c <= 2 ^ 53)%Z ->
  exists q v, py_int_truediv c t = inr q /\ py_round2 (fl (q * 100)) = inr (Fin v).
Proof.
  intros Ht Hc.
  assert (H53 : (Qabs (inject_Z c / inject_Z t) <= 2 ^ 53)%Q).
  { eapply Qle_trans; [apply Qabs_div_Z_le, Ht|].
    rewrite pow2_Z by lia. now rewrite <- Zle_Qle. }
  destruct (py_int_truediv_bound c t 53 Ht ltac:(lia) H53) as (q & Hq & Hqb).
  assert (H60 : (Qabs (q * 100) <= 2 ^ 60)%Q).
  { rewrite Qabs_Qmult. change (Qabs 100) with 100%Q.
    assert (E : (2 ^ 60 == 2 ^ 53 * 128)%Q) by reflexivity.
    pose proof (pow2_pos 53). lra. }
  destruct (fl_bound (q * 100) 60 ltac:(lia) H60) as (q2 & Hq2 & Hq2b).
  destruct (py_round2_bound q2 60 ltac:(lia) Hq2b) as (v & Hv).
  exists q, v. rewrite Hq2. auto.
Qed.

(** Under the same bound the value the threshold block compares is a
    finite float in both modes. *)
Lemma compared_value_finite (mode : string) (license : AppLicenses.IntuneApp) :
  AppLicenses.app_license_total license <> 0%Z ->
  (Z.abs (AppLicenses.app_license_consumed license) <= 2 ^ 53)%Z ->
  exists x, compared_value mode license = inr (Fin x).
Proof.
  intros Ht Hc. unfold compared_value. cbv zeta.
  destruct (String.eqb mode "lic_unit_available_lower_pct"); [|eauto].
  set (t := AppLicenses.app_license_total license) in *.
  set (c := AppLicenses.app_license_consumed license) in *.
  assert (H53 : (Qabs (inject_Z c / inject_Z t) <= 2 ^ 53)%Q).
  { eapply Qle_trans; [apply Qabs_div_Z_le, Ht|].
    rewrite pow2_Z by lia. now rewrite <- Zle_Qle. }
  apply Qabs_Qle_condition in H53.
  assert (E : (inject_Z (t - c) / inject_Z t == 1 - inject_Z c / inject_Z t)%Q).
  { rewrite inject_Z_sub. field. now apply inject_Z_nonzero. }
  assert (H54 : (Qabs (inject_Z (t - c) / inject_Z t) <= 2 ^ 54)%Q).
  { apply Qabs_Qle_condition. rewrite E.
    assert (E2 : (2 ^ 54 == 2 ^ 53 * 2)%Q) by reflexivity.
    assert (E1 : (1 <= 2 ^ 53)%Q) by (vm_compute; discriminate).
    lra. }
  destruct (py_int_truediv_bound (t - c) t 54 Ht ltac:(lia) H54) as (q & Hq & Hqb).
  rewrite Hq.
  assert (H61 : (Qabs (q * 100) <= 2 ^ 61)%Q).
  { rewrite Qabs_Qmult. change (Qabs 100) with 100%Q.
    assert (E3 : (2 ^ 61 == 2 ^ 54 * 128)%Q) by reflexivity.
    pose proof (pow2_pos 54). lra. }
  destruct (fl_bound (q * 100) 61 ltac:(lia) H61) as (x & Hx & _).
  rewrite Hx. eauto.
Qed.

(** The comparisons of a finite float against the levels are the lower
    comparison of its value. *)
Lemma py_lt_lower_state (x w c : Q) :
  (if py_lt (Fin x) c then CRIT else if py_lt (Fin x) w then WARN else OK)
  = lower_state x w c.
Proof.
  unfold py_lt, lower_state.
  destruct (Qle_bool c x) eqn:E1; [apply Qle_bool_iff in E1 | apply Qle_bool_false in E1];
  destruct (Qle_bool w x) eqn:E2; [apply Qle_bool_iff in E2 | apply Qle_bool_false in E2 | |];
  simpl;
  repeat match goal with
         | |- context [Qlt_le_dec ?a ?b] => destruct (Qlt_le_dec a b)
         end; first [reflexivity | exfalso; lra].
Qed.

(** The absolute branch compares the consumed units against
    (total - warning, total - critical); this is the lower comparison of
    the available units against (warning, critical). *)
Lemma abs_branch_lower_state (total consumed : Z) (w c : Q) :
  (if Qlt_le_dec (inject_Z total - c) (inject_Z consumed) then CRIT
   else if Qlt_le_dec (inject_Z total - w) (inject_Z consumed) then WARN
   else OK) = lower_state (inject_Z (total - consumed)) w c.
Proof.
  unfold lower_state. rewrite inject_Z_sub.
  repeat match goal with
         | |- context [Qlt_le_dec ?a ?b] => destruct (Qlt_le_dec a b)
         end; first [reflexivity | lra].
Qed.

Section AppLicensesFacts.
Import AppLicenses.

(** The state of the threshold block, from the compared value. *)
Lemma thresholds_state host license params floor mode lv x :
  lic_total_min params = Some floor ->
  lic_unit_available_lower params = Some (mode, lv) ->
  compared_value mode license = inr (Fin x) ->
  exists r, thresholds host license params = inr r /\
    r.1.1.2 = if (floor <=? app_license_total license)%Z then levels_state x lv else OK.
Proof.
  intros Hmin Hlv Hcv. unfold compared_value in Hcv. cbv zeta in Hcv.
  unfold thresholds. rewrite Hmin. destruct (floor <=? app_license_total license)%Z; [|eauto].
  rewrite Hlv. destruct lv as [|w c]; [eauto|]. cbv zeta.
  destruct (String.eqb mode "lic_unit_available_lower_pct").
  - revert Hcv. destruct (py_int_truediv _ _) as [e|q]; intros Hcv; [discriminate|].
    injection Hcv as Hx. rewrite Hx. eexists. split; [reflexivity|].
    apply py_lt_lower_state.
  - injection Hcv as <-. eexists. split; [reflexivity|]. simpl.
    apply abs_branch_lower_state.
Qed.

Lemma thresholds_below_floor host license params floor :
  lic_total_min params = Some floor ->
  (app_license_total license < floor)%Z ->
  thresholds host license params = inr ("", OK, (None, None), (None, None)).
Proof.
  intros Hmin Hlt. unfold thresholds. rewrite Hmin.
  destruct (Z.leb_spec floor (app_license_total license)); [lia | done].
Qed.

(** The check with a record found and expressions that do not raise. *)
Lemma check_app_unfold host item params section license q v r :
  section !! item = Some license ->
  py_int_truediv (app_license_consumed license) (app_license_total license) = inr q ->
  py_round2 (fl (q * 100)) = inr v ->
  thresholds host license params = inr r ->
  exists summary details,
    check_ms_intune_app_licenses host item params section =
    ([Result r.1.1.2 summary details;
      Metric "ms_intune_app_licenses_total" (Fin (inject_Z (app_license_total license))) None;
      Metric "ms_intune_app_licenses_consumed"
        (Fin (inject_Z (app_license_consumed license))) (Some r.1.2);
      Metric "ms_intune_app_licenses_consumed_pct" v (Some r.2);
      Metric "ms_intune_app_licenses_available"
        (Fin (inject_Z (app_license_total license - app_license_consumed license))) None],
     None).
Proof.
  intros Hl Hq Hv Hth. unfold check_ms_intune_app_licenses. rewrite Hl. cbv zeta.
  rewrite Hq. cbn [bind_exc]. rewrite Hv. cbn [bind_exc].
  rewrite Hth. destruct r as [[[lvl st] la] lp]. cbn. eauto.
Qed.

(** The check with a threshold block that raises. *)
Lemma check_app_thresholds_exc host item params section license q v e :
  section !! item = Some license ->
  py_int_truediv (app_license_consumed license) (app_license_total license) = inr q ->
  py_round2 (fl (q * 100)) = inr v ->
  thresholds host license params = inl e ->
  check_ms_intune_app_licenses host item params section = ([], Some e).
Proof.
  intros Hl Hq Hv Hth. unfold check_ms_intune_app_licenses. rewrite Hl. cbv zeta.
  rewrite Hq. cbn [bind_exc]. rewrite Hv. cbn [bind_exc]. by rewrite Hth.
Qed.

End AppLicensesFacts.

(** Claim C1 (code defect).  A record whose [app_license_total] is zero
    makes [check_ms_intune_app_licenses] raise [ZeroDivisionError] at
    [app_license_consumed / app_license_total] (line 101), before it yields
    anything, whatever the parameters and the consumed count. *)
Theorem app_licenses_zero_total_raises (host : Host) (consumed : Z)
    (params : AppLicenses.Params) :
  AppLicenses.check_ms_intune_app_licenses host "X - T" params
    (AppLicenses.parse_ms_intune_app_licenses [app "X" "T" 0 consumed])
  = ([], Some ZeroDivisionError).
Proof. reflexivity. Qed.

(** Claim C4 (code defect).  With the default parameters (floor
    [lic_total_min = 1]) a record with total 0, below the floor, gets no
    OK status: the check yields no result at all and raises
    [ZeroDivisionError]. *)
Theorem app_licenses_below_floor_zero_total_no_status (host : Host) (consumed : Z) :
  let params := AppLicenses.check_default_parameters in
  let section := AppLicenses.parse_ms_intune_app_licenses [app "X" "T" 0 consumed] in
  AppLicenses.lic_total_min params = Some 1%Z /\
  (0 < 1)%Z /\
  (AppLicenses.check_ms_intune_app_licenses host "X - T" params section).1 = [] /\
  (AppLicenses.check_ms_intune_app_licenses host "X - T" params section).2
    = Some ZeroDivisionError.
Proof. repeat split; reflexivity. Qed.

(** Below the floor, with a nonzero total and at most [2^53] consumed
    licenses, the status is OK, whatever the consumed count and the
    levels. *)
Lemma app_licenses_below_floor_ok host item params section license floor :
  section !! item = Some license ->
  AppLicenses.lic_total_min params = Some floor ->
  (AppLicenses.app_license_total license < floor)%Z ->
  AppLicenses.app_license_total license <> 0%Z ->
  (Z.abs (AppLicenses.app_license_consumed license) <= 2 ^ 53)%Z ->
  exists summary details rest,
    AppLicenses.check_ms_intune_app_licenses host item params section =
    (Result OK summary details :: rest, None).
Proof.
  intros Hl Hmin Hlt Hnz Hc.
  destruct (consumed_pct_finite _ _ Hnz Hc) as (q & v & Hq & Hv).
  destruct (check_app_unfold host item params section license q (Fin v) _ Hl Hq Hv
              (thresholds_below_floor host license params floor Hmin Hlt))
    as (s & d & ->).
  eauto.
Qed.

(** Claim C3 (counterexample).  With 29 of 100 licenses available and the
    percentage levels (29, 5), the available percentage is exactly 29, not
    below the warning level 29, so the lower comparison of the claim gives
    OK.  The check computes [lic_units_available / app_license_total * 100]
    in double precision: [29 / 100] rounds to a double below 0.29, and its
    product with 100 rounds to 28.999999999999996, below 29; the check
    reports WARN. *)
Lemma app_licenses_pct_boundary_warn :
  lower_state (inject_Z (100 - 71) / inject_Z 100 * 100) 29 5 = OK /\
  compared_value "lic_unit_available_lower_pct" (app "X" "T" 100 71)
  = inr (Fin (8162774324609023 # 281474976710656)) /\
  (8162774324609023 # 281474976710656 < 29)%Q /\
  first_state
    (AppLicenses.check_ms_intune_app_licenses (plain_host 0 0) "X - T"
       {| AppLicenses.lic_unit_available_lower :=
            Some ("lic_unit_available_lower_pct", Fixed 29 5);
          AppLicenses.lic_total_min := Some 1%Z |}
       (AppLicenses.parse_ms_intune_app_licenses [app "X" "T" 100 71]))
  = Some WARN.
Proof. repeat split; vm_compute; reflexivity. Qed.

(** Claim C3 (amended).  For a record with a nonzero total at or above the
    floor, at most [2^53] consumed licenses and fixed levels (warning,
    critical), the status of the check is the lower comparison of the
    value [compared_value] gives against (warning, critical): CRIT below
    critical, otherwise WARN below warning, otherwise OK.  In percentage
    mode that value is the double the code computes for
    [lic_units_available / app_license_total * 100], the exact percentage
    rounded twice; in absolute mode it is the available units
    [total - consumed], exact, and the branch's comparison of the consumed
    units against (total - warning, total - critical) is that same lower
    comparison (lemma [abs_branch_lower_state]). *)
Theorem app_licenses_lower_levels_double host item params section license mode w c floor :
  section !! item = Some license ->
  AppLicenses.lic_total_min params = Some floor ->
  (floor <= AppLicenses.app_license_total license)%Z ->
  AppLicenses.lic_unit_available_lower params = Some (mode, Fixed w c) ->
  AppLicenses.app_license_total license <> 0%Z ->
  (Z.abs (AppLicenses.app_license_consumed license) <= 2 ^ 53)%Z ->
  exists x summary details rest,
    compared_value mode license = inr (Fin x) /\
    AppLicenses.check_ms_intune_app_licenses host item params section =
    (Result (lower_state x w c) summary details :: rest, None).
Proof.
  intros Hl Hmin Hle Hlv Hnz Hc.
  destruct (consumed_pct_finite _ _ Hnz Hc) as (q & v & Hq & Hv).
  destruct (compared_value_finite mode license Hnz Hc) as (x & Hx).
  destruct (thresholds_state host license params floor mode (Fixed w c) x Hmin Hlv Hx)
    as (r & Hth & Hst).
  destruct (check_app_unfold host item params section license q (Fin v) r Hl Hq Hv Hth)
    as (s & d & ->).
  apply Z.leb_le in Hle. rewrite Hle in Hst.
  exists x, s, d. eexists. split; [exact Hx|]. rewrite Hst. reflexivity.
Qed.

Lemma app_licenses_lower_levels_double_witness :
  exists x summary details rest,
    compared_value "lic_unit_available_lower_pct" (app "X" "T" 100 96) = inr (Fin x) /\
    AppLicenses.check_ms_intune_app_licenses (plain_host 0 0) "X - T"
      AppLicenses.check_default_parameters
      (AppLicenses.parse_ms_intune_app_licenses [app "X" "T" 100 96]) =
    (Result (lower_state x 10 5) summary details :: rest, None).
Proof.
  apply (app_licenses_lower_levels_double (plain_host 0 0) "X - T"
           AppLicenses.check_default_parameters
           (AppLicenses.parse_ms_intune_app_licenses [app "X" "T" 100 96])
           (app "X" "T" 100 96) "lic_unit_available_lower_pct" 10 5 1);
    first [reflexivity | simpl; lia | discriminate].
Defined.

(** Claim C7.  For a record with a positive total and at most [2^53]
    consumed licenses (and a parameter mapping carrying both keys), the
    check yields one result and the four metrics total, consumed,
    consumed percentage and available.  The consumed percentage is
    [round(consumed / total * 100, 2)] as Python evaluates it: the
    quotient [q] of the two [int]s as a double, [q * 100] as a double,
    rounded to two decimals.  The available metric is [total - consumed],
    and the emitted available and consumed counts add up to the total. *)
Theorem app_licenses_available_consumed host item params section license floor lv :
  section !! item = Some license ->
  AppLicenses.lic_total_min params = Some floor ->
  AppLicenses.lic_unit_available_lower params = Some lv ->
  (0 < AppLicenses.app_license_total license)%Z ->
  (Z.abs (AppLicenses.app_license_consumed license) <= 2 ^ 53)%Z ->
  let total := AppLicenses.app_license_total license in
  let consumed := AppLicenses.app_license_consumed license in
  exists st summary details levels_abs levels_pct q v,
    py_int_truediv consumed total = inr q /\
    py_round2 (fl (q * 100)) = inr v /\
    AppLicenses.check_ms_intune_app_licenses host item params section =
    ([Result st summary details;
      Metric "ms_intune_app_licenses_total" (Fin (inject_Z total)) None;
      Metric "ms_intune_app_licenses_consumed" (Fin (inject_Z consumed)) (Some levels_abs);
      Metric "ms_intune_app_licenses_consumed_pct" v (Some levels_pct);
      Metric "ms_intune_app_licenses_available" (Fin (inject_Z (total - consumed))) None],
     None) /\
    (inject_Z (total - consumed) + inject_Z consumed == inject_Z total)%Q.
Proof.
  intros Hl Hmin Hlv Hpos Hc total consumed.
  assert (Hnz : AppLicenses.app_license_total license <> 0%Z) by lia.
  destruct lv as [mode lv].
  destruct (consumed_pct_finite _ _ Hnz Hc) as (q & v & Hq & Hv).
  destruct (compared_value_finite mode license Hnz Hc) as (x & Hx).
  destruct (thresholds_state host license params floor mode lv x Hmin Hlv Hx)
    as (r & Hth & _).
  destruct (check_app_unfold host item params section license q (Fin v) r Hl Hq Hv Hth)
    as (s & d & ->).
  exists r.1.1.2, s, d, r.1.2, r.2, q, (Fin v).
  split; [exact Hq|]. split; [exact Hv|]. split; [reflexivity|].
  rewrite inject_Z_sub. unfold total, consumed. lra.
Qed.

(** At 23 consumed of 160 the percentage metric is the double nearest to
    14.37, the value Python gives. *)
Lemma app_licenses_available_consumed_witness :
  (exists st summary details levels_abs levels_pct q v,
     py_int_truediv 23 160 = inr q /\
     py_round2 (fl (q * 100)) = inr v /\
     AppLicenses.check_ms_intune_app_licenses (plain_host 0 0) "X - T"
       AppLicenses.check_default_parameters
       (AppLicenses.parse_ms_intune_app_licenses [app "X" "T" 160 23]) =
     ([Result st summary details;
       Metric "ms_intune_app_licenses_total" (Fin (inject_Z 160)) None;
       Metric "ms_intune_app_licenses_consumed" (Fin (inject_Z 23)) (Some levels_abs);
       Metric "ms_intune_app_licenses_consumed_pct" v (Some levels_pct);
       Metric "ms_intune_app_licenses_available" (Fin (inject_Z (160 - 23))) None],
      None) /\
     (inject_Z (160 - 23) + inject_Z 23 == inject_Z 160)%Q) /\
  metric_values "ms_intune_app_licenses_consumed_pct"
    (AppLicenses.check_ms_intune_app_licenses (plain_host 0 0) "X - T"
       AppLicenses.check_default_parameters
       (AppLicenses.parse_ms_intune_app_licenses [app "X" "T" 160 23])).1
  = [fl (1437 # 100)].
Proof.
  split.
  - apply (app_licenses_available_consumed (plain_host 0 0) "X - T"
             AppLicenses.check_default_parameters
             (AppLicenses.parse_ms_intune_app_licenses [app "X" "T" 160 23])
             (app "X" "T" 160 23) 1 ("lic_unit_available_lower_pct", Fixed 10 5));
      first [reflexivity | simpl; lia].
  - vm_compute. reflexivity.
Defined.

(** ** The expiration block *)

Lemma check_levels_shape v lv mn label rf :
  exists st levels_text,
    check_levels v lv mn label rf =
    (Result st (label +:+ ": " +:+ rf v +:+ levels_text)
               (label +:+ ": " +:+ rf v +:+ levels_text)
     :: match mn with Some m => [Metric m (Fin v) None] | None => [] end, None).
Proof.
  unfold check_levels.
  destruct lv as [[|w c]|]; [| destruct (Qlt_le_dec v c); [| destruct (Qlt_le_dec v w)] |];
    destruct mn; eexists _, _; reflexivity.
Qed.

Lemma yield_from_no_exc (g : CheckResult) (tl : list Output) :
  g.2 = None -> yield_from g (tl, None) = ((g.1 ++ tl)%list, None).
Proof. destruct g as [outs e]. simpl. intros ->. reflexivity. Qed.

Lemma yield_from_exc (g : CheckResult) (tl : list Output) :
  (yield_from g (tl, None)).2 = g.2.
Proof. destruct g as [outs [e|]]; reflexivity. Qed.

(** Whether the expiration block raises: only with the levels key absent
    and a non-positive remaining time. *)
Lemma expiration_block_exc host ts pl m :
  (expiration_block host ts pl m).2 =
  match pl with
  | Some _ => None
  | None => if Qlt_le_dec 0 ts then None else Some TypeError
  end.
Proof.
  unfold expiration_block.
  destruct (Qlt_le_dec 0 ts) as [Hp|Hn].
  - destruct (check_levels_shape ts pl (Some m) "Remaining" (render_timespan host))
      as (st & lt & ->).
    by destruct pl.
  - destruct (check_levels_shape ts pl None "Expired"
                (fun x => render_timespan host (Qabs x) +:+ " ago")) as (st & lt & ->).
    by destruct pl.
Qed.

(** With the levels key present, the outputs of the block followed by a
    tail that carries no metric of the block's name have the framing of the
    sign of the remaining time. *)
Lemma expiration_block_frames host ts lv m (tl : list Output) :
  metric_values m tl = [] ->
  frames_expiry host ts m ((expiration_block host ts (Some lv) m).1 ++ tl)%list.
Proof.
  intros Htl. unfold frames_expiry, expiry_label, expiry_rendered, expiration_block.
  destruct (Qlt_le_dec 0 ts) as [Hp|Hn].
  - destruct (check_levels_shape ts (Some lv) (Some m) "Remaining" (render_timespan host))
      as (st & lt & ->).
    split; [eauto|]. simpl. rewrite String.eqb_refl, Htl. reflexivity.
  - destruct (check_levels_shape ts (Some lv) None "Expired"
                (fun x => render_timespan host (Qabs x) +:+ " ago")) as (st & lt & ->).
    split; [eauto|]. simpl. rewrite String.eqb_refl, Htl. reflexivity.
Qed.

(** ** The expiry checks *)

Lemma ade_check_unfold host item params section token ts :
  section !! item = Some token ->
  fromisoformat host (AdeTokens.token_expiration token) = Some ts ->
  AdeTokens.check_ms_intune_apple_ade_tokens host item params section =
  yield_from
    (expiration_block host (ts - now host) (AdeTokens.params_token_expiration params)
       "ms_intune_apple_ade_tokens_remaining_validity")
    ([Result OK ("Expiration time: " +:+ render_datetime host ts)
        (String.concat newline
           [ "Expiration time: " +:+ render_datetime host ts;
             "Token name: " +:+ AdeTokens.token_name token;
             "Token ID: " +:+ AdeTokens.token_id token;
             "Token type: " +:+ AdeTokens.token_type token;
             "Apple ID: " +:+ AdeTokens.token_appleid token ])], None).
Proof.
  intros Hl Hts. unfold AdeTokens.check_ms_intune_apple_ade_tokens.
  by rewrite Hl, Hts.
Qed.

Lemma vpp_check_unfold host item params section token ts :
  section !! item = Some token ->
  fromisoformat host (VppTokens.token_expiration token) = Some ts ->
  exists summary details,
    VppTokens.check_ms_intune_apple_vpp_tokens host item params section =
    yield_from
      (expiration_block host (ts - now host) (VppTokens.params_token_expiration params)
         "ms_intune_apple_vpp_tokens_remaining_validity")
      ([Result (if String.eqb (VppTokens.token_state token) "valid" then OK else CRIT)
          summary details], None).
Proof.
  intros Hl Hts. unfold VppTokens.check_ms_intune_apple_vpp_tokens.
  rewrite Hl, Hts. cbv zeta.
  destruct (String.eqb (VppTokens.token_state token) "valid"); simpl; eauto.
Qed.

Lemma mdm_check_unfold host params cert ts :
  fromisoformat host (MdmPushCert.cert_expiration cert) = Some ts ->
  exists summary details,
    MdmPushCert.check_ms_intune_apple_mdm_push_cert host params cert =
    yield_from
      (expiration_block host (ts - now host) (MdmPushCert.params_cert_expiration params)
         "ms_intune_apple_mdm_push_cert_remaining_validity")
      ([Result OK summary details], None).
Proof.
  intros Hts. unfold MdmPushCert.check_ms_intune_apple_mdm_push_cert.
  rewrite Hts. eauto.
Qed.

(** Claim C5.  In each expiry check (ADE token, VPP token, MDM push
    certificate), with a record whose expiration timestamp [ts] parses and
    the expiration levels present in the parameters, let
    [remaining = ts - now].  The check does not raise; its first result
    has the framing ["Remaining: <remaining>"] when [remaining > 0] and
    ["Expired: <|remaining|> ago"] when [remaining <= 0]; the
    remaining-validity metric is emitted exactly once, with value
    [remaining] when [remaining > 0] and exactly 0 otherwise. *)
Theorem expiry_checks_framing :
  (forall host item params section token ts lv,
     section !! item = Some token ->
     fromisoformat host (AdeTokens.token_expiration token) = Some ts ->
     AdeTokens.params_token_expiration params = Some lv ->
     exists outs,
       AdeTokens.check_ms_intune_apple_ade_tokens host item params section = (outs, None) /\
       frames_expiry host (ts - now host) "ms_intune_apple_ade_tokens_remaining_validity"
         outs) /\
  (forall host item params section token ts lv,
     section !! item = Some token ->
     fromisoformat host (VppTokens.token_expiration token) = Some ts ->
     VppTokens.params_token_expiration params = Some lv ->
     exists outs,
       VppTokens.check_ms_intune_apple_vpp_tokens host item params section = (outs, None) /\
       frames_expiry host (ts - now host) "ms_intune_apple_vpp_tokens_remaining_validity"
         outs) /\
  (forall host params cert ts lv,
     fromisoformat host (MdmPushCert.cert_expiration cert) = Some ts ->
     MdmPushCert.params_cert_expiration params = Some lv ->
     exists outs,
       MdmPushCert.check_ms_intune_apple_mdm_push_cert host params cert = (outs, None) /\
       frames_expiry host (ts - now host)
         "ms_intune_apple_mdm_push_cert_remaining_validity" outs).
Proof.
  split; [|split].
  - intros host item params section token ts lv Hl Hts Hlv.
    rewrite (ade_check_unfold host item params section token ts Hl Hts), Hlv.
    rewrite yield_from_no_exc by (by rewrite expiration_block_exc).
    eexists. split; [reflexivity|]. by apply expiration_block_frames.
  - intros host item params section token ts lv Hl Hts Hlv.
    destruct (vpp_check_unfold host item params section token ts Hl Hts) as (s & d & ->).
    rewrite Hlv, yield_from_no_exc by (by rewrite expiration_block_exc).
    eexists. split; [reflexivity|]. by apply expiration_block_frames.
  - intros host params cert ts lv Hts Hlv.
    destruct (mdm_check_unfold host params cert ts Hts) as (s & d & ->).
    rewrite Hlv, yield_from_no_exc by (by rewrite expiration_block_exc).
    eexists. split; [reflexivity|]. by apply expiration_block_frames.
Qed.

Lemma expiry_checks_framing_witness :
  (exists outs,
     AdeTokens.check_ms_intune_apple_ade_tokens (plain_host 100 250) "A"
       AdeTokens.check_default_parameters
       (AdeTokens.parse_ms_intune_apple_ade_tokens [ade "A" "id-0001"]) = (outs, None) /\
     frames_expiry (plain_host 100 250) (100 - 250)
       "ms_intune_apple_ade_tokens_remaining_validity" outs) /\
  (exists outs,
     VppTokens.check_ms_intune_apple_vpp_tokens (plain_host 300 250) "V"
       VppTokens.check_default_parameters
       (VppTokens.parse_ms_intune_apple_vpp_tokens [vpp "V" "id-0001" "valid"])
     = (outs, None) /\
     frames_expiry (plain_host 300 250) (300 - 250)
       "ms_intune_apple_vpp_tokens_remaining_validity" outs) /\
  (exists outs,
     MdmPushCert.check_ms_intune_apple_mdm_push_cert (plain_host 100 250)
       MdmPushCert.check_default_parameters mdm_cert = (outs, None) /\
     frames_expiry (plain_host 100 250) (100 - 250)
       "ms_intune_apple_mdm_push_cert_remaining_validity" outs).
Proof.
  destruct expiry_checks_framing as (Hade & Hvpp & Hmdm).
  split; [|split].
  - apply (Hade (plain_host 100 250) "A" AdeTokens.check_default_parameters
             (AdeTokens.parse_ms_intune_apple_ade_tokens [ade "A" "id-0001"])
             (ade "A" "id-0001") 100%Q (Fixed 1209600 432000)); reflexivity.
  - apply (Hvpp (plain_host 300 250) "V" VppTokens.check_default_parameters
             (VppTokens.parse_ms_intune_apple_vpp_tokens [vpp "V" "id-0001" "valid"])
             (vpp "V" "id-0001" "valid") 300%Q (Fixed 1209600 432000)); reflexivity.
  - apply (Hmdm (plain_host 100 250) MdmPushCert.check_default_parameters mdm_cert
             100%Q (Fixed 1209600 432000)); reflexivity.
Defined.

(** Claim C6.  The connector check yields exactly one result, CRIT when
    [connector_state] differs from ["active"] and OK when it equals it;
    the VPP-token check ends with its state result, CRIT when
    [token_state] differs from ["valid"] and OK when it equals it.  Both
    states depend on the state string alone, with no numeric comparison.
    (For the connector the last-connection timestamp must parse; for the
    VPP token the expiration timestamp must parse and the check must not
    stop in its expiration block, see C10.) *)
Theorem state_based_results :
  (forall host item section connector t,
     section !! item = Some connector ->
     fromisoformat host (CertConnectors.connector_connection_last connector) = Some t ->
     exists summary details,
       CertConnectors.check_ms_intune_cert_connectors host item section =
       ([Result (if String.eqb (CertConnectors.connector_state connector) "active"
                 then OK else CRIT) summary details], None)) /\
  (forall host item params section token ts,
     section !! item = Some token ->
     fromisoformat host (VppTokens.token_expiration token) = Some ts ->
     VppTokens.params_token_expiration params <> None \/ (0 < ts - now host)%Q ->
     exists outs summary details,
       VppTokens.check_ms_intune_apple_vpp_tokens host item params section =
       ((outs ++ [Result (if String.eqb (VppTokens.token_state token) "valid"
                          then OK else CRIT) summary details])%list, None)).
Proof.
  split.
  - intros host item section c t Hl Ht.
    unfold CertConnectors.check_ms_intune_cert_connectors. rewrite Hl, Ht. cbv zeta.
    destruct (String.eqb (CertConnectors.connector_state c) "active"); simpl; eauto.
  - intros host item params section token ts Hl Hts Hok.
    destruct (vpp_check_unfold host item params section token ts Hl Hts) as (s & d & ->).
    rewrite yield_from_no_exc; [eauto|].
    rewrite expiration_block_exc.
    destruct (VppTokens.params_token_expiration params); [done|].
    destruct Hok as [Hok|Hok]; [done|].
    destruct (Qlt_le_dec 0 (ts - now host)); [done | lra].
Qed.

Lemma state_based_results_witness :
  (exists summary details,
     CertConnectors.check_ms_intune_cert_connectors (plain_host 0 0) "C"
       (CertConnectors.parse_ms_intune_cert_connectors [connector "C" "id-0001" "inactive"])
     = ([Result (if String.eqb "inactive" "active" then OK else CRIT)
           summary details], None)) /\
  (exists outs summary details,
     VppTokens.check_ms_intune_apple_vpp_tokens (plain_host 100 250) "V"
       VppTokens.check_default_parameters
       (VppTokens.parse_ms_intune_apple_vpp_tokens [vpp "V" "id-0001" "expired"])
     = ((outs ++ [Result (if String.eqb "expired" "valid" then OK else CRIT)
                    summary details])%list, None)).
Proof.
  destruct state_based_results as (Hconn & Hvpp). split.
  - apply (Hconn (plain_host 0 0) "C"
             (CertConnectors.parse_ms_intune_cert_connectors [connector "C" "id-0001" "inactive"])
             (connector "C" "id-0001" "inactive") 0%Q); reflexivity.
  - apply (Hvpp (plain_host 100 250) "V" VppTokens.check_default_parameters
             (VppTokens.parse_ms_intune_apple_vpp_tokens [vpp "V" "id-0001" "expired"])
             (vpp "V" "id-0001" "expired") 100%Q); [reflexivity | reflexivity |].
    left. discriminate.
Defined.

(** Claim C8.  When the requested item is not a key of the parsed
    section, every multi-instance check (app licenses, ADE tokens, VPP
    tokens, certificate connectors) yields nothing and does not raise. *)
Theorem absent_item_no_result (host : Host) (item : string) :
  (forall params (section : gmap string AppLicenses.IntuneApp),
     section !! item = None ->
     AppLicenses.check_ms_intune_app_licenses host item params section = ([], None)) /\
  (forall params (section : gmap string AdeTokens.AdeToken),
     section !! item = None ->
     AdeTokens.check_ms_intune_apple_ade_tokens host item params section = ([], None)) /\
  (forall params (section : gmap string VppTokens.AppleVppToken),
     section !! item = None ->
     VppTokens.check_ms_intune_apple_vpp_tokens host item params section = ([], None)) /\
  (forall (section : gmap string CertConnectors.CertConnector),
     section !! item = None ->
     CertConnectors.check_ms_intune_cert_connectors host item section = ([], None)).
Proof.
  repeat split; intros.
  - unfold AppLicenses.check_ms_intune_app_licenses. by rewrite H.
  - unfold AdeTokens.check_ms_intune_apple_ade_tokens. by rewrite H.
  - unfold VppTokens.check_ms_intune_apple_vpp_tokens. by rewrite H.
  - unfold CertConnectors.check_ms_intune_cert_connectors. by rewrite H.
Qed.

Lemma absent_item_no_result_witness :
  AppLicenses.check_ms_intune_app_licenses (plain_host 0 0) "Y - T"
    AppLicenses.check_default_parameters
    (AppLicenses.parse_ms_intune_app_licenses [app "X" "T" 0 0]) = ([], None) /\
  AdeTokens.check_ms_intune_apple_ade_tokens (plain_host 0 0) "B"
    AdeTokens.check_default_parameters
    (AdeTokens.parse_ms_intune_apple_ade_tokens [ade "A" "id-0001"]) = ([], None) /\
  VppTokens.check_ms_intune_apple_vpp_tokens (plain_host 0 0) "B"
    VppTokens.check_default_parameters
    (VppTokens.parse_ms_intune_apple_vpp_tokens [vpp "A" "id-0001" "valid"]) = ([], None) /\
  CertConnectors.check_ms_intune_cert_connectors (plain_host 0 0) "B"
    (CertConnectors.parse_ms_intune_cert_connectors [connector "A" "id-0001" "active"])
  = ([], None).
Proof.
  destruct (absent_item_no_result (plain_host 0 0) "Y - T") as (Happ & _ & _ & _).
  destruct (absent_item_no_result (plain_host 0 0) "B") as (_ & Hade & Hvpp & Hconn).
  split; [apply Happ; reflexivity|].
  split; [apply Hade; reflexivity|].
  split; [apply Hvpp; reflexivity|].
  apply Hconn; reflexivity.
Defined.

(** Claim C10.  In the expiry checks, once the record's expiration
    timestamp parses, whether the check raises depends only on the
    parameters and the sign of the remaining time: with the levels key
    present it never raises; with the key absent it raises [TypeError]
    exactly when the remaining time is [<= 0] (the expired branch
    subscripts [params.get(..)[1]]), and returns normally otherwise.  An
    item absent from the section never raises. *)
Theorem expiry_params_totality :
  (forall host item params section,
     (section !! item = None ->
      (AdeTokens.check_ms_intune_apple_ade_tokens host item params section).2 = None) /\
     (forall token ts,
      section !! item = Some token ->
      fromisoformat host (AdeTokens.token_expiration token) = Some ts ->
      (AdeTokens.check_ms_intune_apple_ade_tokens host item params section).2 =
      match AdeTokens.params_token_expiration params with
      | Some _ => None
      | None => if Qlt_le_dec 0 (ts - now host) then None else Some TypeError
      end)) /\
  (forall host item params section,
     (section !! item = None ->
      (VppTokens.check_ms_intune_apple_vpp_tokens host item params section).2 = None) /\
     (forall token ts,
      section !! item = Some token ->
      fromisoformat host (VppTokens.token_expiration token) = Some ts ->
      (VppTokens.check_ms_intune_apple_vpp_tokens host item params section).2 =
      match VppTokens.params_token_expiration params with
      | Some _ => None
      | None => if Qlt_le_dec 0 (ts - now host) then None else Some TypeError
      end)) /\
  (forall host params cert ts,
     fromisoformat host (MdmPushCert.cert_expiration cert) = Some ts ->
     (MdmPushCert.check_ms_intune_apple_mdm_push_cert host params cert).2 =
     match MdmPushCert.params_cert_expiration params with
     | Some _ => None
     | None => if Qlt_le_dec 0 (ts - now host) then None else Some TypeError
     end).
Proof.
  split; [|split].
  - intros host item params section. split.
    + intros H. unfold AdeTokens.check_ms_intune_apple_ade_tokens. by rewrite H.
    + intros token ts Hl Hts.
      rewrite (ade_check_unfold host item params section token ts Hl Hts).
      by rewrite yield_from_exc, expiration_block_exc.
  - intros host item params section. split.
    + intros H. unfold VppTokens.check_ms_intune_apple_vpp_tokens. by rewrite H.
    + intros token ts Hl Hts.
      destruct (vpp_check_unfold host item params section token ts Hl Hts) as (s & d & ->).
      by rewrite yield_from_exc, expiration_block_exc.
  - intros host params cert ts Hts.
    destruct (mdm_check_unfold host params cert ts Hts) as (s & d & ->).
    by rewrite yield_from_exc, expiration_block_exc.
Qed.

Lemma expiry_params_totality_witness :
  (AdeTokens.check_ms_intune_apple_ade_tokens (plain_host 100 250) "A"
     {| AdeTokens.params_token_expiration := None |}
     (AdeTokens.parse_ms_intune_apple_ade_tokens [ade "A" "id-0001"])).2
  = Some TypeError /\
  (VppTokens.check_ms_intune_apple_vpp_tokens (plain_host 100 250) "V"
     VppTokens.check_default_parameters
     (VppTokens.parse_ms_intune_apple_vpp_tokens [vpp "V" "id-0001" "valid"])).2
  = None /\
  (MdmPushCert.check_ms_intune_apple_mdm_push_cert (plain_host 300 250)
     {| MdmPushCert.params_cert_expiration := None |} mdm_cert).2 = None.
Proof.
  destruct expiry_params_totality as (Hade & Hvpp & Hmdm). split; [|split].
  - rewrite (proj2 (Hade (plain_host 100 250) "A"
                       {| AdeTokens.params_token_expiration := None |}
                       (AdeTokens.parse_ms_intune_apple_ade_tokens [ade "A" "id-0001"]))
               (ade "A" "id-0001") 100%Q
               eq_refl eq_refl).
    reflexivity.
  - rewrite (proj2 (Hvpp (plain_host 100 250) "V" VppTokens.check_default_parameters
                       (VppTokens.parse_ms_intune_apple_vpp_tokens [vpp "V" "id-0001" "valid"]))
               (vpp "V" "id-0001" "valid") 100%Q
               eq_refl eq_refl).
    reflexivity.
  - rewrite (Hmdm (plain_host 300 250) {| MdmPushCert.params_cert_expiration := None |}
               mdm_cert 300%Q eq_refl).
    reflexivity.
Defined.

(** * Further properties of the parsers, discoveries and checks *)

(** ** Parsers *)

Section UniqueNamesMore.
Context {R : Type} (name_of id_of : R -> string).

Lemma parse_unique_loop_origin names (m : gmap string R) items k r :
  parse_unique_loop name_of id_of names m items !! k = Some r ->
  m !! k = Some r \/
  (r ∈ items /\ (k = name_of r \/ k = name_of r +:+ " " +:+ py_last4 (id_of r))).
Proof.
  revert names m. induction items as [|a items IH]; intros names m H; simpl in H; [by left|].
  destruct (unique_name name_of id_of names a) as [key names'] eqn:E.
  destruct (IH _ _ H) as [H1|(Hin & Hk)].
  - destruct (decide (key = k)) as [<-|Hne].
    + rewrite lookup_insert_eq in H1. injection H1 as <-. right.
      split; [by left|]. unfold unique_name in E. case_decide; injection E as <- _; auto.
    + rewrite lookup_insert_ne in H1 by done. by left.
  - right. split; [by right|done].
Qed.

Lemma parse_unique_loop_size names (m : gmap string R) items :
  (size (parse_unique_loop name_of id_of names m items) <= size m + length items)%nat.
Proof.
  revert names m. induction items as [|a items IH]; intros names m; simpl; [lia|].
  destruct (unique_name name_of id_of names a) as [key names'].
  etransitivity; [apply IH|]. rewrite map_size_insert.
  destruct (m !! key); simpl; lia.
Qed.

Lemma parse_unique_loop_distinct names (m : gmap string R) items :
  NoDup (name_of <$> items) ->
  (forall r, r ∈ items -> (name_of r ∉ names) /\ m !! name_of r = None) ->
  size (parse_unique_loop name_of id_of names m items) = (size m + length items)%nat /\
  (forall k r, m !! k = Some r -> k ∉ name_of <$> items ->
     parse_unique_loop name_of id_of names m items !! k = Some r) /\
  (forall r, r ∈ items -> parse_unique_loop name_of id_of names m items !! name_of r = Some r).
Proof.
  revert names m. induction items as [|a items IH]; intros names m Hnd Hfresh; simpl.
  - split; [lia|]. split; [done|]. intros r Hr. by apply elem_of_nil in Hr.
  - inversion Hnd as [|? ? Hnotin Hnd']; subst.
    destruct (Hfresh a ltac:(left)) as [Ha1 Ha2].
    unfold unique_name. rewrite decide_False by done.
    assert (Hfresh' : forall r, r ∈ items ->
              (name_of r ∉ {[name_of a]} ∪ names) /\ <[name_of a := a]> m !! name_of r = None).
    { intros r Hr. destruct (Hfresh r ltac:(by right)) as [H1 H2].
      assert (name_of r <> name_of a).
      { intros E. apply Hnotin. rewrite <- E. by apply list_elem_of_fmap_2. }
      split; [set_solver|]. by rewrite lookup_insert_ne by congruence. }
    destruct (IH _ _ Hnd' Hfresh') as (Hsz & Hkeep & Hall).
    split; [|split].
    + rewrite Hsz, map_size_insert_None by done. lia.
    + intros k r Hk Hnk. apply Hkeep.
      * rewrite lookup_insert_ne; [done|]. intros <-. apply Hnk. by left.
      * intros Hin. apply Hnk. by right.
    + intros r Hr. apply elem_of_cons in Hr as [->|Hr].
      * apply Hkeep; [by rewrite lookup_insert_eq | done].
      * by apply Hall.
Qed.

End UniqueNamesMore.

(** Every entry of the mapping built by the ADE-token, VPP-token and
    connector parsers is an input record, stored under its display name
    or under its display name followed by a space and the last 4
    characters of its identifier. *)
Theorem parse_unique_entry_origin {R} (name_of id_of : R -> string) items k r :
  parse_unique name_of id_of items !! k = Some r ->
  r ∈ items /\ (k = name_of r \/ k = name_of r +:+ " " +:+ py_last4 (id_of r)).
Proof.
  intros H. destruct (parse_unique_loop_origin name_of id_of ∅ ∅ items k r H)
    as [H'|H']; [by rewrite lookup_empty in H' | done].
Qed.

Lemma parse_unique_entry_origin_witness :
  AdeTokens.parse_ms_intune_apple_ade_tokens [ade "A" "id-0001"; ade "A" "id-0002"]
    !! "A 0002" = Some (ade "A" "id-0002") /\
  ade "A" "id-0002" ∈ [ade "A" "id-0001"; ade "A" "id-0002"] /\
  ("A 0002" = "A" \/ "A 0002" = "A" +:+ " " +:+ py_last4 "id-0002").
Proof.
  assert (H : AdeTokens.parse_ms_intune_apple_ade_tokens [ade "A" "id-0001"; ade "A" "id-0002"]
                !! "A 0002" = Some (ade "A" "id-0002")) by (vm_compute; reflexivity).
  split; [exact H|].
  exact (parse_unique_entry_origin AdeTokens.token_name AdeTokens.token_id _ _ _ H).
Defined.

(** The parsed mapping never has more entries than input records; when
    the display names of the records are pairwise distinct it has exactly
    one entry per record, each stored under its own display name. *)
Theorem parse_unique_size {R} (name_of id_of : R -> string) (items : list R) :
  (size (parse_unique name_of id_of items) <= length items)%nat /\
  (NoDup (name_of <$> items) ->
   size (parse_unique name_of id_of items) = length items /\
   forall r, r ∈ items -> parse_unique name_of id_of items !! name_of r = Some r).
Proof.
  split.
  - pose proof (parse_unique_loop_size name_of id_of ∅ ∅ items) as H.
    rewrite map_size_empty in H. exact H.
  - intros Hnd.
    destruct (parse_unique_loop_distinct name_of id_of ∅ ∅ items Hnd) as (Hsz & _ & Hall).
    { intros r _. split; [set_solver | apply lookup_empty]. }
    rewrite map_size_empty in Hsz. split; [exact Hsz | exact Hall].
Qed.

Lemma parse_unique_size_witness :
  size (CertConnectors.parse_ms_intune_cert_connectors
          [connector "C1" "id-0001" "active"; connector "C2" "id-0002" "inactive"]) = 2%nat /\
  CertConnectors.parse_ms_intune_cert_connectors
    [connector "C1" "id-0001" "active"; connector "C2" "id-0002" "inactive"]
    !! "C2" = Some (connector "C2" "id-0002" "inactive").
Proof.
  destruct (parse_unique_size CertConnectors.connector_name CertConnectors.connector_id
              [connector "C1" "id-0001" "active"; connector "C2" "id-0002" "inactive"])
    as [_ H].
  destruct H as [Hsz Hall].
  { apply (bool_decide_unpack _). vm_compute. reflexivity. }
  split; [exact Hsz|].
  apply (Hall (connector "C2" "id-0002" "inactive")). right. left.
Defined.

Lemma app_parse_loop_lookup (items : list AppLicenses.IntuneApp) m k :
  AppLicenses.parse_loop m items !! k =
  match last (filter (fun r => app_service_name r = k) items) with
  | Some r => Some r
  | None => m !! k
  end.
Proof.
  revert m. induction items as [|a items IH]; intros m; simpl; [done|].
  rewrite IH. fold (app_service_name a). rewrite filter_cons.
  case_decide as Hk.
  - rewrite last_cons. destruct (last (filter _ items)); [done|].
    subst k. by rewrite lookup_insert_eq.
  - destruct (last (filter _ items)); [done|].
    by rewrite lookup_insert_ne.
Qed.

(** The app-licenses parser keeps, for each service name, the last record
    carrying it: a later record with the same name and type replaces an
    earlier one, and a name no record carries is absent. *)
Theorem app_licenses_parse_last_wins (items : list AppLicenses.IntuneApp) (k : string) :
  AppLicenses.parse_ms_intune_app_licenses items !! k =
  last (filter (fun r => app_service_name r = k) items).
Proof.
  unfold AppLicenses.parse_ms_intune_app_licenses.
  rewrite app_parse_loop_lookup, lookup_empty. by destruct (last _).
Qed.

Section UniqueNamesDistinct.
Context {R : Type} (name_of id_of : R -> string).

Lemma parse_unique_loop_distinct_keys names (m : gmap string R) items k r :
  NoDup (name_of <$> items) ->
  (forall r, r ∈ items -> name_of r ∉ names) ->
  parse_unique_loop name_of id_of names m items !! k = Some r ->
  m !! k = Some r \/ (r ∈ items /\ k = name_of r).
Proof.
  revert names m. induction items as [|a items IH]; intros names m Hnd Hfresh H;
    simpl in H; [by left|].
  inversion Hnd as [|? ? Hnotin Hnd']; subst.
  unfold unique_name in H. rewrite decide_False in H by (apply Hfresh; left).
  assert (Hfresh' : forall r, r ∈ items -> name_of r ∉ {[name_of a]} ∪ names).
  { intros r' Hr'. apply not_elem_of_union. split.
    - intros E%elem_of_singleton. apply Hnotin. rewrite <- E.
      by apply list_elem_of_fmap_2.
    - apply Hfresh. by right. }
  destruct (IH _ _ Hnd' Hfresh' H) as [H1|(Hin & Hk)].
  - destruct (decide (name_of a = k)) as [<-|Hne].
    + rewrite lookup_insert_eq in H1. injection H1 as <-. right. split; [left|done].
    + rewrite lookup_insert_ne in H1 by done. by left.
  - right. split; [by right|done].
Qed.

End UniqueNamesDistinct.

(** ** Discoveries *)

Lemma discover_keys_elem {R} (section : gmap string R) k :
  MkService (Some k) ∈ discover_keys section <-> is_Some (section !! k).
Proof.
  unfold discover_keys. rewrite list_elem_of_fmap. split.
  - intros (k' & E & Hk'). injection E as <-.
    apply list_elem_of_fmap in Hk' as ([k'' v] & -> & Hin).
    apply elem_of_map_to_list in Hin. simpl. eauto.
  - intros [v Hv]. exists k. split; [done|].
    apply list_elem_of_fmap. exists (k, v). split; [done|].
    by apply elem_of_map_to_list.
Qed.

(** For the token and connector plugins, when the records carry pairwise
    distinct display names, the services discovered from the parsed
    section are exactly the display names of the records. *)
Theorem parse_discover_distinct_names {R} (name_of id_of : R -> string) items k :
  NoDup (name_of <$> items) ->
  MkService (Some k) ∈ discover_keys (parse_unique name_of id_of items) <->
  k ∈ name_of <$> items.
Proof.
  intros Hnd. rewrite discover_keys_elem. split.
  - intros [r Hr].
    destruct (parse_unique_loop_distinct_keys name_of id_of ∅ ∅ items k r Hnd
                ltac:(set_solver) Hr) as [H|(Hin & ->)].
    + by rewrite lookup_empty in H.
    + by apply list_elem_of_fmap_2.
  - intros (r & -> & Hin)%list_elem_of_fmap.
    destruct (parse_unique_loop_distinct name_of id_of ∅ ∅ items Hnd) as (_ & _ & Hall).
    { intros r' _. split; [set_solver | apply lookup_empty]. }
    exists r. by apply Hall.
Qed.

Lemma parse_discover_distinct_names_witness :
  MkService (Some "C2") ∈ CertConnectors.discover_ms_intune_cert_connectors
    (CertConnectors.parse_ms_intune_cert_connectors
       [connector "C1" "id-0001" "active"; connector "C2" "id-0002" "inactive"]).
Proof.
  apply (parse_discover_distinct_names CertConnectors.connector_name
           CertConnectors.connector_id
           [connector "C1" "id-0001" "active"; connector "C2" "id-0002" "inactive"] "C2").
  - apply (bool_decide_unpack _). vm_compute. reflexivity.
  - right. left.
Defined.

(** The app-licenses services discovered from the parsed section are
    exactly the names ["<app_name> - <app_type>"] of the input records. *)
Theorem app_licenses_discovered_names (items : list AppLicenses.IntuneApp) k :
  MkService (Some k) ∈ AppLicenses.discover_ms_intune_app_licenses
                         (AppLicenses.parse_ms_intune_app_licenses items) <->
  exists r, r ∈ items /\ app_service_name r = k.
Proof.
  unfold AppLicenses.discover_ms_intune_app_licenses.
  rewrite discover_keys_elem. unfold AppLicenses.parse_ms_intune_app_licenses.
  rewrite app_parse_loop_lookup, lookup_empty. split.
  - intros Hs. destruct (last _) as [r|] eqn:E; [|by destruct Hs].
    apply last_Some_elem_of, list_elem_of_filter in E as [Hk Hin]. eauto.
  - intros (r & Hin & Hk).
    assert (Hne : filter (fun r => app_service_name r = k) items <> []).
    { intros E. assert (Hr : r ∈ filter (fun r => app_service_name r = k) items)
        by (by apply list_elem_of_filter).
      rewrite E in Hr. by apply elem_of_nil in Hr. }
    apply last_is_Some in Hne as [r' ->]. eauto.
Qed.

(** ** Checks of the app-licenses plugin *)

Lemma compared_value_antitone mode l1 l2 x1 x2 :
  AppLicenses.app_license_total l1 = AppLicenses.app_license_total l2 ->
  (0 < AppLicenses.app_license_total l1)%Z ->
  (AppLicenses.app_license_consumed l1 <= AppLicenses.app_license_consumed l2)%Z ->
  compared_value mode l1 = inr (Fin x1) ->
  compared_value mode l2 = inr (Fin x2) ->
  (x2 <= x1)%Q.
Proof.
  intros Ht Hpos Hc H1 H2. unfold compared_value in H1, H2. cbv zeta in H1, H2.
  rewrite <- Ht in H2.
  set (t := AppLicenses.app_license_total l1) in *.
  assert (Ha : (inject_Z (t - AppLicenses.app_license_consumed l2)
                <= inject_Z (t - AppLicenses.app_license_consumed l1))%Q)
    by (rewrite <- Zle_Qle; lia).
  destruct (String.eqb mode "lic_unit_available_lower_pct").
  - destruct (py_int_truediv (t - AppLicenses.app_license_consumed l1) t) as [e1|q1] eqn:D1;
      [discriminate|].
    destruct (py_int_truediv (t - AppLicenses.app_license_consumed l2) t) as [e2|q2] eqn:D2;
      [discriminate|].
    injection H1 as H1. injection H2 as H2.
    apply py_int_truediv_fl in D1, D2.
    assert (Hd : (inject_Z (t - AppLicenses.app_license_consumed l2) / inject_Z t
                  <= inject_Z (t - AppLicenses.app_license_consumed l1) / inject_Z t)%Q).
    { unfold Qdiv. apply Qmult_le_compat_r; [exact Ha|].
      apply Qinv_le_0_compat. rewrite (Zlt_Qlt 0) in Hpos. now apply Qlt_le_weak. }
    pose proof (fl_mono _ _ _ _ Hd D2 D1) as Hq.
    exact (fl_mono _ _ _ _ (Qmult_le_compat_r _ _ 100 Hq ltac:(lra)) H2 H1).
  - injection H1 as <-. injection H2 as <-. exact Ha.
Qed.

Lemma levels_state_antitone v1 v2 lv :
  (v1 <= v2)%Q -> (severity (levels_state v2 lv) <= severity (levels_state v1 lv))%nat.
Proof.
  intros Hv. destruct lv as [|w c]; simpl; [lia|]. unfold lower_state.
  repeat match goal with
         | |- context [Qlt_le_dec ?a ?b] => destruct (Qlt_le_dec a b)
         end; simpl; first [lia | exfalso; lra].
Qed.

(** For two records of the same positive total, each with at most [2^53]
    consumed licenses, under the same parameters, the one with more
    consumed licenses never gets a better state: the state of the check
    is antitone in the consumed count, in both threshold modes (the
    double-precision roundings of the percentage are monotone) and on
    either side of the total floor. *)
Theorem app_licenses_state_monotone host item params s1 s2 l1 l2 floor lv :
  s1 !! item = Some l1 -> s2 !! item = Some l2 ->
  AppLicenses.lic_total_min params = Some floor ->
  AppLicenses.lic_unit_available_lower params = Some lv ->
  AppLicenses.app_license_total l1 = AppLicenses.app_license_total l2 ->
  (0 < AppLicenses.app_license_total l1)%Z ->
  (AppLicenses.app_license_consumed l1 <= AppLicenses.app_license_consumed l2)%Z ->
  (Z.abs (AppLicenses.app_license_consumed l1) <= 2 ^ 53)%Z ->
  (Z.abs (AppLicenses.app_license_consumed l2) <= 2 ^ 53)%Z ->
  exists st1 st2,
    first_state (AppLicenses.check_ms_intune_app_licenses host item params s1) = Some st1 /\
    first_state (AppLicenses.check_ms_intune_app_licenses host item params s2) = Some st2 /\
    (severity st1 <= severity st2)%nat.
Proof.
  intros H1 H2 Hmin Hlv Ht Hpos Hc Hb1 Hb2. destruct lv as [mode lv].
  assert (Hnz1 : AppLicenses.app_license_total l1 <> 0%Z) by lia.
  assert (Hnz2 : AppLicenses.app_license_total l2 <> 0%Z) by lia.
  destruct (consumed_pct_finite _ _ Hnz1 Hb1) as (q1 & v1 & Hq1 & Hv1).
  destruct (consumed_pct_finite _ _ Hnz2 Hb2) as (q2 & v2 & Hq2 & Hv2).
  destruct (compared_value_finite mode l1 Hnz1 Hb1) as (x1 & Hx1).
  destruct (compared_value_finite mode l2 Hnz2 Hb2) as (x2 & Hx2).
  destruct (thresholds_state host l1 params floor mode lv x1 Hmin Hlv Hx1) as (r1 & Hth1 & Hst1).
  destruct (thresholds_state host l2 params floor mode lv x2 Hmin Hlv Hx2) as (r2 & Hth2 & Hst2).
  destruct (check_app_unfold host item params s1 l1 q1 (Fin v1) r1 H1 Hq1 Hv1 Hth1)
    as (sm1 & d1 & ->).
  destruct (check_app_unfold host item params s2 l2 q2 (Fin v2) r2 H2 Hq2 Hv2 Hth2)
    as (sm2 & d2 & ->).
  exists r1.1.1.2, r2.1.1.2. split; [done|]. split; [done|].
  rewrite Hst1, Hst2, <- Ht.
  destruct (floor <=? AppLicenses.app_license_total l1)%Z; [|simpl; lia].
  apply levels_state_antitone. exact (compared_value_antitone mode l1 l2 x1 x2 Ht Hpos Hc Hx1 Hx2).
Qed.

Lemma app_licenses_state_monotone_witness :
  exists st1 st2,
    first_state (AppLicenses.check_ms_intune_app_licenses (plain_host 0 0) "X - T"
                   AppLicenses.check_default_parameters
                   (AppLicenses.parse_ms_intune_app_licenses [app "X" "T" 100 50]))
    = Some st1 /\
    first_state (AppLicenses.check_ms_intune_app_licenses (plain_host 0 0) "X - T"
                   AppLicenses.check_default_parameters
                   (AppLicenses.parse_ms_intune_app_licenses [app "X" "T" 100 97]))
    = Some st2 /\
    (severity st1 <= severity st2)%nat.
Proof.
  apply (app_licenses_state_monotone (plain_host 0 0) "X - T"
           AppLicenses.check_default_parameters
           (AppLicenses.parse_ms_intune_app_licenses [app "X" "T" 100 50])
           (AppLicenses.parse_ms_intune_app_licenses [app "X" "T" 100 97])
           (app "X" "T" 100 50) (app "X" "T" 100 97) 1
           ("lic_unit_available_lower_pct", Fixed 10 5));
    first [reflexivity | simpl; lia].
Defined.

(** With the levels of [lic_unit_available_lower] switched off
    ([NoLevels]), a nonzero total and at most [2^53] consumed licenses,
    the check never raises and its status is OK, whatever the consumed
    count and the floor. *)
Theorem app_licenses_no_levels_ok host item params section license floor mode :
  section !! item = Some license ->
  AppLicenses.lic_total_min params = Some floor ->
  AppLicenses.lic_unit_available_lower params = Some (mode, NoLevels) ->
  AppLicenses.app_license_total license <> 0%Z ->
  (Z.abs (AppLicenses.app_license_consumed license) <= 2 ^ 53)%Z ->
  exists summary details rest,
    AppLicenses.check_ms_intune_app_licenses host item params section =
    (Result OK summary details :: rest, None).
Proof.
  intros Hl Hmin Hlv Hnz Hc.
  destruct (consumed_pct_finite _ _ Hnz Hc) as (q & v & Hq & Hv).
  destruct (compared_value_finite mode license Hnz Hc) as (x & Hx).
  destruct (thresholds_state host license params floor mode NoLevels x Hmin Hlv Hx)
    as (r & Hth & Hst).
  destruct (check_app_unfold host item params section license q (Fin v) r Hl Hq Hv Hth)
    as (s & d & ->).
  rewrite Hst. destruct (floor <=? _)%Z; simpl; eauto.
Qed.

Lemma app_licenses_no_levels_ok_witness :
  exists summary details rest,
    AppLicenses.check_ms_intune_app_licenses (plain_host 0 0) "X - T"
      {| AppLicenses.lic_unit_available_lower := Some ("lic_unit_available_lower_abs", NoLevels);
         AppLicenses.lic_total_min := Some 1%Z |}
      (AppLicenses.parse_ms_intune_app_licenses [app "X" "T" 10 10]) =
    (Result OK summary details :: rest, None).
Proof.
  apply (app_licenses_no_levels_ok (plain_host 0 0) "X - T"
           {| AppLicenses.lic_unit_available_lower :=
                Some ("lic_unit_available_lower_abs", NoLevels);
              AppLicenses.lic_total_min := Some 1%Z |}
           (AppLicenses.parse_ms_intune_app_licenses [app "X" "T" 10 10])
           (app "X" "T" 10 10) 1 "lic_unit_available_lower_abs");
    first [reflexivity | simpl; lia].
Defined.

(** A parameter mapping without a key the check subscripts makes it
    raise [KeyError] before it yields anything (for a nonzero total and
    at most [2^53] consumed licenses, where the percentage line before
    raises nothing): without ["lic_total_min"] always; without
    ["lic_unit_available_lower"] only when the total reaches the floor,
    since below it that key is never read. *)
Theorem app_licenses_missing_key host item params section license :
  section !! item = Some license ->
  AppLicenses.app_license_total license <> 0%Z ->
  (Z.abs (AppLicenses.app_license_consumed license) <= 2 ^ 53)%Z ->
  (AppLicenses.lic_total_min params = None ->
   AppLicenses.check_ms_intune_app_licenses host item params section = ([], Some KeyError)) /\
  (forall floor,
     AppLicenses.lic_total_min params = Some floor ->
     AppLicenses.lic_unit_available_lower params = None ->
     ((floor <= AppLicenses.app_license_total license)%Z ->
      AppLicenses.check_ms_intune_app_licenses host item params section
      = ([], Some KeyError)) /\
     ((AppLicenses.app_license_total license < floor)%Z ->
      (AppLicenses.check_ms_intune_app_licenses host item params section).2 = None)).
Proof.
  intros Hl Hnz Hc.
  destruct (consumed_pct_finite _ _ Hnz Hc) as (q & v & Hq & Hv).
  split.
  - intros Hmin. apply (check_app_thresholds_exc host item params section license q (Fin v));
      [exact Hl | exact Hq | exact Hv |].
    unfold AppLicenses.thresholds. by rewrite Hmin.
  - intros floor Hmin Hlv. split.
    + intros Hle. apply (check_app_thresholds_exc host item params section license q (Fin v));
        [exact Hl | exact Hq | exact Hv |].
      unfold AppLicenses.thresholds. rewrite Hmin.
      apply Z.leb_le in Hle. by rewrite Hle, Hlv.
    + intros Hlt.
      destruct (check_app_unfold host item params section license q (Fin v) _ Hl Hq Hv
                  (thresholds_below_floor host license params floor Hmin Hlt))
        as (s & d & ->).
      reflexivity.
Qed.

Lemma app_licenses_missing_key_witness :
  AppLicenses.check_ms_intune_app_licenses (plain_host 0 0) "X - T"
    {| AppLicenses.lic_unit_available_lower := None; AppLicenses.lic_total_min := Some 1%Z |}
    (AppLicenses.parse_ms_intune_app_licenses [app "X" "T" 10 3]) = ([], Some KeyError).
Proof.
  apply (proj1 (proj2 (app_licenses_missing_key (plain_host 0 0) "X - T"
                         {| AppLicenses.lic_unit_available_lower := None;
                            AppLicenses.lic_total_min := Some 1%Z |}
                         (AppLicenses.parse_ms_intune_app_licenses [app "X" "T" 10 3])
                         (app "X" "T" 10 3) eq_refl ltac:(discriminate) ltac:(simpl; lia))
                  1%Z eq_refl eq_refl)).
  simpl; lia.
Defined.

(** The levels the check attaches to its consumed metrics (for a nonzero
    total and at most [2^53] consumed licenses): fixed levels at or above
    the floor translate the lower levels on the available value into
    upper levels on the consumed value, on the percentage metric as the
    doubles [100 - warn] and [100 - crit] in percentage mode and on the
    absolute metric as [(total - warn, total - crit)], exact [int]s, in
    absolute mode; the other metric, and both below the floor or without
    levels, carry no levels.  The metric values are the total, the
    consumed count, the rounded percentage and the available units. *)
Theorem app_licenses_metric_levels host item params section license floor mode lv :
  section !! item = Some license ->
  AppLicenses.lic_total_min params = Some floor ->
  AppLicenses.lic_unit_available_lower params = Some (mode, lv) ->
  AppLicenses.app_license_total license <> 0%Z ->
  (Z.abs (AppLicenses.app_license_consumed license) <= 2 ^ 53)%Z ->
  let total := inject_Z (AppLicenses.app_license_total license) in
  let consumed := inject_Z (AppLicenses.app_license_consumed license) in
  exists st summary details la lp q v,
    py_int_truediv (AppLicenses.app_license_consumed license)
      (AppLicenses.app_license_total license) = inr q /\
    py_round2 (fl (q * 100)) = inr v /\
    AppLicenses.check_ms_intune_app_licenses host item params section =
    ([Result st summary details;
      Metric "ms_intune_app_licenses_total" (Fin total) None;
      Metric "ms_intune_app_licenses_consumed" (Fin consumed) (Some la);
      Metric "ms_intune_app_licenses_consumed_pct" v (Some lp);
      Metric "ms_intune_app_licenses_available"
        (Fin (inject_Z (AppLicenses.app_license_total license
                        - AppLicenses.app_license_consumed license))) None], None) /\
    match lv with
    | Fixed w c =>
        if (floor <=? AppLicenses.app_license_total license)%Z then
          if String.eqb mode "lic_unit_available_lower_pct"
          then la = (None, None) /\ lp = (Some (fl (100 - w)), Some (fl (100 - c)))
          else la = (Some (Fin (total - w)), Some (Fin (total - c))) /\ lp = (None, None)
        else la = (None, None) /\ lp = (None, None)
    | NoLevels => la = (None, None) /\ lp = (None, None)
    end.
Proof.
  intros Hl Hmin Hlv Hnz Hc total consumed.
  destruct (consumed_pct_finite _ _ Hnz Hc) as (q & v & Hq & Hv).
  destruct (compared_value_finite mode license Hnz Hc) as (x & Hx).
  destruct (thresholds_state host license params floor mode lv x Hmin Hlv Hx)
    as (r & Hth & _).
  destruct (check_app_unfold host item params section license q (Fin v) r Hl Hq Hv Hth)
    as (s & d & ->).
  exists r.1.1.2, s, d, r.1.2, r.2, q, (Fin v).
  split; [exact Hq|]. split; [exact Hv|]. split; [reflexivity|].
  unfold AppLicenses.thresholds in Hth. rewrite Hmin in Hth. cbv zeta in Hth.
  destruct (floor <=? AppLicenses.app_license_total license)%Z;
    [| injection Hth as <-; destruct lv; simpl; auto].
  rewrite Hlv in Hth. destruct lv as [|w c]; [injection Hth as <-; simpl; auto|].
  destruct (String.eqb mode "lic_unit_available_lower_pct").
  - destruct (py_int_truediv (AppLicenses.app_license_total license
                               - AppLicenses.app_license_consumed license)
                (AppLicenses.app_license_total license)); [discriminate|].
    injection Hth as <-. simpl. auto.
  - injection Hth as <-. simpl. auto.
Qed.

Lemma app_licenses_metric_levels_witness :
  exists st summary details la lp q v,
    py_int_truediv 96 100 = inr q /\
    py_round2 (fl (q * 100)) = inr v /\
    AppLicenses.check_ms_intune_app_licenses (plain_host 0 0) "X - T"
      {| AppLicenses.lic_unit_available_lower :=
           Some ("lic_unit_available_lower_abs", Fixed 10 5);
         AppLicenses.lic_total_min := Some 1%Z |}
      (AppLicenses.parse_ms_intune_app_licenses [app "X" "T" 100 96]) =
    ([Result st summary details;
      Metric "ms_intune_app_licenses_total" (Fin (inject_Z 100)) None;
      Metric "ms_intune_app_licenses_consumed" (Fin (inject_Z 96)) (Some la);
      Metric "ms_intune_app_licenses_consumed_pct" v (Some lp);
      Metric "ms_intune_app_licenses_available" (Fin (inject_Z (100 - 96))) None], None) /\
    (if (1 <=? 100)%Z then
       if String.eqb "lic_unit_available_lower_abs" "lic_unit_available_lower_pct"
       then la = (None, None) /\ lp = (Some (fl (100 - 10)), Some (fl (100 - 5)))
       else la = (Some (Fin (inject_Z 100 - 10)), Some (Fin (inject_Z 100 - 5)))
            /\ lp = (None, None)
     else la = (None, None) /\ lp = (None, None)).
Proof.
  apply (app_licenses_metric_levels (plain_host 0 0) "X - T"
           {| AppLicenses.lic_unit_available_lower :=
                Some ("lic_unit_available_lower_abs", Fixed 10 5);
              AppLicenses.lic_total_min := Some 1%Z |}
           (AppLicenses.parse_ms_intune_app_licenses [app "X" "T" 100 96])
           (app "X" "T" 100 96) 1 "lic_unit_available_lower_abs" (Fixed 10 5));
    first [reflexivity | simpl; lia].
Defined.

(** ** Checks of the expiry plugins *)

(** With the levels present, the expiration block yields exactly one
    result, first, whose state is the lower comparison of the remaining
    time against the levels, and does not raise. *)
Lemma expiration_block_levels host ts lv m :
  exists summary rest,
    expiration_block host ts (Some lv) m =
    (Result (levels_state ts lv) summary summary :: rest, None) /\
    result_states rest = [].
Proof.
  unfold expiration_block, check_levels, levels_state, lower_state.
  destruct lv as [|w c];
    repeat match goal with
           | |- context [Qlt_le_dec ?a ?b] => destruct (Qlt_le_dec a b)
           end; simpl; eauto.
Qed.

Lemma result_states_cons_app st s d rest tl :
  result_states rest = [] ->
  result_states ((Result st s d :: rest) ++ tl)%list = st :: result_states tl.
Proof.
  intros H. unfold result_states in *. simpl. by rewrite omap_app, H.
Qed.

(** With the levels present in the parameters, each expiry check yields
    exactly two results and does not raise: first the expiry result,
    whose state compares the remaining time against the levels (OK
    without levels), then the closing result, OK for the ADE token and
    the push certificate and the state result for the VPP token. *)
Theorem expiry_checks_result_states :
  (forall host item params section token ts lv,
     section !! item = Some token ->
     fromisoformat host (AdeTokens.token_expiration token) = Some ts ->
     AdeTokens.params_token_expiration params = Some lv ->
     exists outs,
       AdeTokens.check_ms_intune_apple_ade_tokens host item params section = (outs, None) /\
       result_states outs = [levels_state (ts - now host) lv; OK]) /\
  (forall host item params section token ts lv,
     section !! item = Some token ->
     fromisoformat host (VppTokens.token_expiration token) = Some ts ->
     VppTokens.params_token_expiration params = Some lv ->
     exists outs,
       VppTokens.check_ms_intune_apple_vpp_tokens host item params section = (outs, None) /\
       result_states outs =
       [levels_state (ts - now host) lv;
        if String.eqb (VppTokens.token_state token) "valid" then OK else CRIT]) /\
  (forall host params cert ts lv,
     fromisoformat host (MdmPushCert.cert_expiration cert) = Some ts ->
     MdmPushCert.params_cert_expiration params = Some lv ->
     exists outs,
       MdmPushCert.check_ms_intune_apple_mdm_push_cert host params cert = (outs, None) /\
       result_states outs = [levels_state (ts - now host) lv; OK]).
Proof.
  split; [|split].
  - intros host item params section token ts lv Hl Hts Hlv.
    rewrite (ade_check_unfold host item params section token ts Hl Hts), Hlv.
    destruct (expiration_block_levels host (ts - now host) lv
                "ms_intune_apple_ade_tokens_remaining_validity") as (s & rest & -> & Hr).
    eexists. split; [reflexivity|]. cbn [yield_from fst snd].
    by rewrite result_states_cons_app.
  - intros host item params section token ts lv Hl Hts Hlv.
    destruct (vpp_check_unfold host item params section token ts Hl Hts) as (s' & d & ->).
    rewrite Hlv.
    destruct (expiration_block_levels host (ts - now host) lv
                "ms_intune_apple_vpp_tokens_remaining_validity") as (s & rest & -> & Hr).
    eexists. split; [reflexivity|]. cbn [yield_from fst snd].
    by rewrite result_states_cons_app.
  - intros host params cert ts lv Hts Hlv.
    destruct (mdm_check_unfold host params cert ts Hts) as (s' & d & ->).
    rewrite Hlv.
    destruct (expiration_block_levels host (ts - now host) lv
                "ms_intune_apple_mdm_push_cert_remaining_validity") as (s & rest & -> & Hr).
    eexists. split; [reflexivity|]. cbn [yield_from fst snd].
    by rewrite result_states_cons_app.
Qed.

Lemma expiry_checks_result_states_witness :
  (exists outs,
     AdeTokens.check_ms_intune_apple_ade_tokens (plain_host 1000000 250) "A"
       AdeTokens.check_default_parameters
       (AdeTokens.parse_ms_intune_apple_ade_tokens [ade "A" "id-0001"]) = (outs, None) /\
     result_states outs = [levels_state (1000000 - 250) (Fixed 1209600 432000); OK]) /\
  (exists outs,
     VppTokens.check_ms_intune_apple_vpp_tokens (plain_host 300 250) "V"
       VppTokens.check_default_parameters
       (VppTokens.parse_ms_intune_apple_vpp_tokens [vpp "V" "id-0001" "expired"])
     = (outs, None) /\
     result_states outs =
     [levels_state (300 - 250) (Fixed 1209600 432000);
      if String.eqb "expired" "valid" then OK else CRIT]) /\
  (exists outs,
     MdmPushCert.check_ms_intune_apple_mdm_push_cert (plain_host 100 250)
       {| MdmPushCert.params_cert_expiration := Some NoLevels |} mdm_cert = (outs, None) /\
     result_states outs = [levels_state (100 - 250) NoLevels; OK]).
Proof.
  destruct expiry_checks_result_states as (Hade & Hvpp & Hmdm).
  split; [|split].
  - apply (Hade (plain_host 1000000 250) "A" AdeTokens.check_default_parameters
             (AdeTokens.parse_ms_intune_apple_ade_tokens [ade "A" "id-0001"])
             (ade "A" "id-0001") 1000000%Q (Fixed 1209600 432000)); reflexivity.
  - apply (Hvpp (plain_host 300 250) "V" VppTokens.check_default_parameters
             (VppTokens.parse_ms_intune_apple_vpp_tokens [vpp "V" "id-0001" "expired"])
             (vpp "V" "id-0001" "expired") 300%Q (Fixed 1209600 432000)); reflexivity.
  - apply (Hmdm (plain_host 100 250) {| MdmPushCert.params_cert_expiration := Some NoLevels |}
             mdm_cert 100%Q NoLevels); reflexivity.
Defined.

(** An expired token or certificate (remaining time [<= 0]) under fixed
    levels with a positive critical level always gets CRIT as its first
    result, whatever the warning level. *)
Theorem expired_first_result_crit :
  (forall host item params section token ts w c,
     section !! item = Some token ->
     fromisoformat host (AdeTokens.token_expiration token) = Some ts ->
     AdeTokens.params_token_expiration params = Some (Fixed w c) ->
     (ts <= now host)%Q -> (0 < c)%Q ->
     first_state (AdeTokens.check_ms_intune_apple_ade_tokens host item params section)
     = Some CRIT) /\
  (forall host item params section token ts w c,
     section !! item = Some token ->
     fromisoformat host (VppTokens.token_expiration token) = Some ts ->
     VppTokens.params_token_expiration params = Some (Fixed w c) ->
     (ts <= now host)%Q -> (0 < c)%Q ->
     first_state (VppTokens.check_ms_intune_apple_vpp_tokens host item params section)
     = Some CRIT) /\
  (forall host params cert ts w c,
     fromisoformat host (MdmPushCert.cert_expiration cert) = Some ts ->
     MdmPushCert.params_cert_expiration params = Some (Fixed w c) ->
     (ts <= now host)%Q -> (0 < c)%Q ->
     first_state (MdmPushCert.check_ms_intune_apple_mdm_push_cert host params cert)
     = Some CRIT).
Proof.
  assert (Hcrit : forall ts t w c, (ts <= t)%Q -> (0 < c)%Q ->
                    levels_state (ts - t) (Fixed w c) = CRIT).
  { intros ts t w c Hle Hc. simpl. unfold lower_state.
    destruct (Qlt_le_dec (ts - t) c); [done | lra]. }
  split; [|split].
  - intros host item params section token ts w c Hl Hts Hlv Hle Hc.
    rewrite (ade_check_unfold host item params section token ts Hl Hts), Hlv.
    destruct (expiration_block_levels host (ts - now host) (Fixed w c)
                "ms_intune_apple_ade_tokens_remaining_validity") as (s & rest & -> & _).
    rewrite Hcrit by assumption. reflexivity.
  - intros host item params section token ts w c Hl Hts Hlv Hle Hc.
    destruct (vpp_check_unfold host item params section token ts Hl Hts) as (s' & d & ->).
    rewrite Hlv.
    destruct (expiration_block_levels host (ts - now host) (Fixed w c)
                "ms_intune_apple_vpp_tokens_remaining_validity") as (s & rest & -> & _).
    rewrite Hcrit by assumption. reflexivity.
  - intros host params cert ts w c Hts Hlv Hle Hc.
    destruct (mdm_check_unfold host params cert ts Hts) as (s' & d & ->).
    rewrite Hlv.
    destruct (expiration_block_levels host (ts - now host) (Fixed w c)
                "ms_intune_apple_mdm_push_cert_remaining_validity") as (s & rest & -> & _).
    rewrite Hcrit by assumption. reflexivity.
Qed.

Lemma expired_first_result_crit_witness :
  first_state (AdeTokens.check_ms_intune_apple_ade_tokens (plain_host 100 250) "A"
                 AdeTokens.check_default_parameters
                 (AdeTokens.parse_ms_intune_apple_ade_tokens [ade "A" "id-0001"]))
  = Some CRIT /\
  first_state (VppTokens.check_ms_intune_apple_vpp_tokens (plain_host 100 250) "V"
                 VppTokens.check_default_parameters
                 (VppTokens.parse_ms_intune_apple_vpp_tokens [vpp "V" "id-0001" "valid"]))
  = Some CRIT /\
  first_state (MdmPushCert.check_ms_intune_apple_mdm_push_cert (plain_host 250 250)
                 MdmPushCert.check_default_parameters mdm_cert)
  = Some CRIT.
Proof.
  destruct expired_first_result_crit as (Hade & Hvpp & Hmdm).
  split; [|split].
  - apply (Hade (plain_host 100 250) "A" AdeTokens.check_default_parameters
             (AdeTokens.parse_ms_intune_apple_ade_tokens [ade "A" "id-0001"])
             (ade "A" "id-0001") 100%Q 1209600%Q 432000%Q);
      first [reflexivity | vm_compute; discriminate].
  - apply (Hvpp (plain_host 100 250) "V" VppTokens.check_default_parameters
             (VppTokens.parse_ms_intune_apple_vpp_tokens [vpp "V" "id-0001" "valid"])
             (vpp "V" "id-0001" "valid") 100%Q 1209600%Q 432000%Q);
      first [reflexivity | vm_compute; discriminate].
  - apply (Hmdm (plain_host 250 250) MdmPushCert.check_default_parameters mdm_cert
             250%Q 1209600%Q 432000%Q);
      first [reflexivity | vm_compute; discriminate].
Defined.

(** ** The connector plugin end to end *)

(** Every service discovered from the parsed connector section gets,
    when the last-connection timestamps of the records parse, exactly one
    result and no exception; its state is that of an input record: CRIT
    unless the record's state is ["active"]. *)
Theorem connectors_discovered_one_result host items k :
  (forall r, r ∈ items ->
     is_Some (fromisoformat host (CertConnectors.connector_connection_last r))) ->
  MkService (Some k) ∈ CertConnectors.discover_ms_intune_cert_connectors
                         (CertConnectors.parse_ms_intune_cert_connectors items) ->
  exists r summary details,
    r ∈ items /\
    CertConnectors.check_ms_intune_cert_connectors host k
      (CertConnectors.parse_ms_intune_cert_connectors items) =
    ([Result (if String.eqb (CertConnectors.connector_state r) "active" then OK else CRIT)
        summary details], None).
Proof.
  intros Hparse Hk.
  apply discover_keys_elem in Hk as [r Hr].
  destruct (parse_unique_loop_origin CertConnectors.connector_name
              CertConnectors.connector_id ∅ ∅ items k r Hr) as [H|(Hin & _)].
  { by rewrite lookup_empty in H. }
  destruct (Hparse r Hin) as [t Ht].
  exists r. unfold CertConnectors.check_ms_intune_cert_connectors. rewrite Hr, Ht.
  cbv zeta. destruct (String.eqb (CertConnectors.connector_state r) "active");
    simpl; eauto.
Qed.

Lemma connectors_discovered_one_result_witness :
  exists r summary details,
    r ∈ [connector "C" "id-0001" "active"; connector "C" "id-0002" "inactive"] /\
    CertConnectors.check_ms_intune_cert_connectors (plain_host 0 0) "C 0002"
      (CertConnectors.parse_ms_intune_cert_connectors
         [connector "C" "id-0001" "active"; connector "C" "id-0002" "inactive"]) =
    ([Result (if String.eqb (CertConnectors.connector_state r) "active" then OK else CRIT)
        summary details], None).
Proof.
  apply (connectors_discovered_one_result (plain_host 0 0)
           [connector "C" "id-0001" "active"; connector "C" "id-0002" "inactive"] "C 0002").
  - intros r _. eexists. reflexivity.
  - apply discover_keys_elem. eexists. vm_compute. reflexivity.
Defined.

(** ** Slicing *)

Lemma substring_0_all (s : string) m :
  (String.length s <= m)%nat -> substring 0 m s = s.
Proof.
  revert m. induction s as [|c s IH]; intros m Hm; destruct m; simpl in *; try done.
  - lia.
  - rewrite IH by lia. done.
Qed.

Lemma substring_split (s : string) n :
  (n <= String.length s)%nat ->
  s = substring 0 n s +:+ substring n (String.length s - n) s.
Proof.
  revert n. induction s as [|c s IH]; intros n Hn; simpl in *.
  - destruct n; [done | lia].
  - destruct n as [|n]; simpl.
    + f_equal. by rewrite substring_0_all.
    + change (String c s = String c (substring 0 n s +:+
                                      substring n (String.length s - n) s)).
      f_equal. apply IH. lia.
Qed.

Lemma length_substring (s : string) n m :
  (n + m <= String.length s)%nat -> String.length (substring n m s) = m.
Proof.
  revert n m. induction s as [|c s IH]; intros n m H; simpl in *.
  - destruct n, m; simpl; lia.
  - destruct n as [|n]; [destruct m as [|m]; simpl; [done|] |].
    + f_equal. apply IH. lia.
    + apply IH. lia.
Qed.

(** The suffix [item['token_id'][-4:]] that the token and connector
    parsers append to a repeated display name is the last four
    characters of the identifier, or the whole identifier when it is
    shorter. *)
Theorem py_last4_suffix (s : string) :
  exists p, s = p +:+ py_last4 s /\
            String.length (py_last4 s) = Nat.min 4 (String.length s).
Proof.
  unfold py_last4.
  destruct (Nat.le_gt_cases 4 (String.length s)) as [Hle|Hlt].
  - exists (substring 0 (String.length s - 4) s).
    assert (E : (String.length s - (String.length s - 4) = 4)%nat) by lia.
    split.
    + pose proof (substring_split s (String.length s - 4) ltac:(lia)) as Hs.
      rewrite E in Hs. exact Hs.
    + rewrite length_substring by lia. lia.
  - assert (E : (String.length s - 4 = 0)%nat) by lia. rewrite E.
    rewrite substring_0_all by lia. exists "". split; [done | lia].
Qed.
